(** * Retry-driven scheduled-post execution core

    A shallow embedding of the retry primitives ([utils/retry.ts]), the
    scheduled-posts job ([startScheduledPostsJob], [processScheduledPost]) and
    the executor ([AutopilotService.executeScheduledPost]), followed by the
    properties of the specification that concern them.

    Numbers.  JavaScript numbers that hold delays are modelled as exact
    rationals ([Q]); attempt indices, retry counters and timestamps as
    integers ([Z]).  Rounding of IEEE doubles is not modelled.

    Effects.  Asynchronous functions are functions from a [World] to a result
    and a new [World]; an [await] is sequential composition; a rejected
    promise is the [Threw] result.  The world holds everything outside the
    code: the rows of the ScheduledPost table, the clock, the draws that
    [Math.random] will return, the replies that the database and the remote
    API will give, and the trace of log lines and sleeps. *)

From Stdlib Require Import ZArith QArith Qminmax Qpower Qround Lqa Lia.
From Stdlib Require Import Bool List String DecimalString.
Import ListNotations.

Set Implicit Arguments.

(* ================================================================== *)
(** * BackoffPolicy: [calculateExponentialBackoff]                      *)
(* ================================================================== *)

Module Backoff.

Local Open Scope Q_scope.

(** Defaults of the two optional parameters. *)
Definition defaultBaseDelay : Q := 1000.
Definition defaultMaxDelay : Q := 30000.

(** [Math.min(baseDelay * Math.pow(2, attempt), maxDelay)]. *)
Definition cappedDelay (attempt : Z) (baseDelay maxDelay : Q) : Q :=
  Qmin (baseDelay * 2 ^ attempt) maxDelay.

(** [calculateExponentialBackoff(attempt, baseDelay, maxDelay)].  The value
    [rnd] is what the call to [Math.random()] returns.
<<
      const delay = Math.min(baseDelay * Math.pow(2, attempt), maxDelay);
      const jitter = Math.random() * 0.1 * delay;
      return delay + jitter;
>> *)
Definition calculateExponentialBackoff
    (rnd : Q) (attempt : Z) (baseDelay maxDelay : Q) : Q :=
  let delay := cappedDelay attempt baseDelay maxDelay in
  let jitter := rnd * (1 # 10) * delay in
  delay + jitter.

(** [Math.random()] returns a number in the half-open interval [0, 1). *)
Definition unitDraw (rnd : Q) : Prop := 0 <= rnd /\ rnd < 1.

End Backoff.

(* ================================================================== *)
(** * JavaScript values: strings, errors                                *)
(* ================================================================== *)

Module Js.

Local Open Scope string_scope.
Local Open Scope bool_scope.

(** [haystack.includes(needle)]: [needle] occurs in [haystack]. *)
Fixpoint includes (needle haystack : string) : bool :=
  String.prefix needle haystack
  || match haystack with
     | EmptyString => false
     | String _ rest => includes needle rest
     end.

(** [String(n)] and [`${n}`] for an integer-valued number. *)
Definition showZ (n : Z) : string := NilZero.string_of_int (Z.to_int n).

(** The error classes of [utils/customErrors] that the scheduler
    distinguishes ([instanceof]); every other error is a [PlainError]. *)
Inductive ErrorClass : Type :=
| PlainError
| FacebookAPIError
| ScheduledPostError.

(** An [Error] object.  [errPostId] and [errRetryCount] are the two extra
    fields of a [ScheduledPostError]. *)
Record JsError : Type := {
  errClass : ErrorClass;
  message : string;
  errPostId : option string;
  errRetryCount : option Z
}.

(** [new Error(msg)]. *)
Definition newError (msg : string) : JsError :=
  {| errClass := PlainError; message := msg;
     errPostId := None; errRetryCount := None |}.

(** [new FacebookAPIError(msg, ...)]. *)
Definition newFacebookAPIError (msg : string) : JsError :=
  {| errClass := FacebookAPIError; message := msg;
     errPostId := None; errRetryCount := None |}.

(** [error instanceof FacebookAPIError]. *)
Definition isFacebookAPIError (e : JsError) : bool :=
  match errClass e with FacebookAPIError => true | _ => false end.

(** What a [catch] clause of [retryWithBackoff] may receive: an [Error], or
    any other thrown value, of which only [String(value)] matters. *)
Inductive Thrown : Type :=
| ThrownError (e : JsError)
| ThrownValue (repr : string).

(** [error instanceof Error ? error : new Error(String(error))]. *)
Definition toError (t : Thrown) : JsError :=
  match t with
  | ThrownError e => e
  | ThrownValue repr => newError repr
  end.

End Js.

(* ================================================================== *)
(** * Data model: the ScheduledPost row                                 *)
(* ================================================================== *)

Module Model.

(** Modelled from the spec: the declaration of the model [ScheduledPost]
    ([../models]) is not among the sources; the values of [status] are the
    four of the specification's data model. *)
Inductive Status : Type := pending | processing | published | failed.

Definition Status_eqb (a b : Status) : bool :=
  match a, b with
  | pending, pending | processing, processing
  | published, published | failed, failed => true
  | _, _ => false
  end.

(** Modelled from the spec: the JSON column [metadata] of the model
    [ScheduledPost], whose declaration is not among the sources.  Its keys
    are those the sources write: [trendId] and [predictedScore] when a post is
    created, the others by [processScheduledPost].  An absent key is [None];
    timestamps are milliseconds since the epoch (their ISO rendering is not
    modelled). *)
Record Metadata : Type := {
  retryCount : option Z;
  lastError : option string;
  lastRetryAt : option Z;
  finalError : option string;
  failedAt : option Z;
  trendId : option string;
  predictedScore : option Z
}.

(** The object [{}]. *)
Definition emptyMetadata : Metadata :=
  {| retryCount := None; lastError := None; lastRetryAt := None;
     finalError := None; failedAt := None;
     trendId := None; predictedScore := None |}.

(** Modelled from the spec: the joined [FacebookAccount], whose declaration
    is not among the sources (only the two fields the executor reads). *)
Record FacebookAccount : Type := {
  pageId : option string;
  pageAccessToken : option string
}.

(** Modelled from the spec: an instance of the model [ScheduledPost], whose
    declaration is not among the sources; the fields are those of the
    specification's ScheduledJob that the sources read or write, under the
    names the sources use. *)
Record ScheduledPost : Type := {
  id : string;
  status : Status;
  scheduledFor : Z;
  content : string;
  metadata : option Metadata;
  errorMessage : option string;
  publishedContentId : option string;
  publishedAt : option Z;
  facebookAccount : option FacebookAccount
}.

(** Assignments to fields of an instance. *)
Definition setStatus (s : Status) (p : ScheduledPost) : ScheduledPost :=
  {| id := id p; status := s; scheduledFor := scheduledFor p;
     content := content p; metadata := metadata p;
     errorMessage := errorMessage p;
     publishedContentId := publishedContentId p;
     publishedAt := publishedAt p; facebookAccount := facebookAccount p |}.

Definition setMetadata (m : Metadata) (p : ScheduledPost) : ScheduledPost :=
  {| id := id p; status := status p; scheduledFor := scheduledFor p;
     content := content p; metadata := Some m;
     errorMessage := errorMessage p;
     publishedContentId := publishedContentId p;
     publishedAt := publishedAt p; facebookAccount := facebookAccount p |}.

Definition setErrorMessage (msg : string) (p : ScheduledPost) : ScheduledPost :=
  {| id := id p; status := status p; scheduledFor := scheduledFor p;
     content := content p; metadata := metadata p;
     errorMessage := Some msg;
     publishedContentId := publishedContentId p;
     publishedAt := publishedAt p; facebookAccount := facebookAccount p |}.

Definition setPublishedContentId (cid : string) (p : ScheduledPost)
  : ScheduledPost :=
  {| id := id p; status := status p; scheduledFor := scheduledFor p;
     content := content p; metadata := metadata p;
     errorMessage := errorMessage p;
     publishedContentId := Some cid;
     publishedAt := publishedAt p; facebookAccount := facebookAccount p |}.

Definition setPublishedAt (t : Z) (p : ScheduledPost) : ScheduledPost :=
  {| id := id p; status := status p; scheduledFor := scheduledFor p;
     content := content p; metadata := metadata p;
     errorMessage := errorMessage p;
     publishedContentId := publishedContentId p;
     publishedAt := Some t; facebookAccount := facebookAccount p |}.

(** [{...post.metadata}]: spreading [null] gives the empty object. *)
Definition spread (m : option Metadata) : Metadata :=
  match m with Some o => o | None => emptyMetadata end.

(** [{ ...m, retryCount: n, lastError: e, lastRetryAt: t }]. *)
Definition withRetry (n : Z) (e : string) (t : Z) (m : Metadata) : Metadata :=
  {| retryCount := Some n; lastError := Some e; lastRetryAt := Some t;
     finalError := finalError m; failedAt := failedAt m;
     trendId := trendId m; predictedScore := predictedScore m |}.

(** [{ ...m, retryCount: n, finalError: e, failedAt: t }]. *)
Definition withFinal (n : Z) (e : string) (t : Z) (m : Metadata) : Metadata :=
  {| retryCount := Some n; lastError := lastError m;
     lastRetryAt := lastRetryAt m;
     finalError := Some e; failedAt := Some t;
     trendId := trendId m; predictedScore := predictedScore m |}.

(** [post.metadata?.retryCount || 0]. *)
Definition retryCountOf (p : ScheduledPost) : Z :=
  match metadata p with
  | Some m => match retryCount m with Some n => n | None => 0%Z end
  | None => 0%Z
  end.

(** [!s] for a nullable string: [null], [undefined] and [''] are falsy. *)
Definition falsy (s : option string) : bool :=
  match s with
  | None => true
  | Some EmptyString => true
  | Some _ => false
  end.

End Model.

(* ================================================================== *)
(** * The world and the monad of asynchronous functions                 *)
(* ================================================================== *)

Module Async.

Import Js Model.

Inductive Level : Type := Info | Warn | Err.

(** The pieces of a template literal. *)
Inductive Piece : Type :=
| Txt (s : string)
| Num (n : Z)
| Millis (d : Q).

(** What the code does that is visible from outside, besides the table. *)
Inductive Event : Type :=
| Logged (lvl : Level) (msg : list Piece)   (* logger.info / warn / error *)
| Console (msg : list Piece)                (* console.error *)
| Slept (ms : Q).                           (* await sleep(ms) *)

(** What the database or the remote API answers to one call. *)
Inductive Reply : Type :=
| Succeeds (payload : string)
| Rejects (msg : string).

Record World : Type := {
  table : list ScheduledPost;   (* rows, in the order the database scans them *)
  clock : Z;                    (* milliseconds since the epoch *)
  draws : list Q;               (* what the next calls of Math.random return *)
  replies : list Reply;         (* what the next external calls answer *)
  calls : nat;                  (* invocations of a scripted operation so far *)
  trace : list Event            (* events so far, oldest first *)
}.

Definition setTable (t : list ScheduledPost) (w : World) : World :=
  {| table := t; clock := clock w; draws := draws w;
     replies := replies w; calls := calls w; trace := trace w |}.

Definition setClock (c : Z) (w : World) : World :=
  {| table := table w; clock := c; draws := draws w;
     replies := replies w; calls := calls w; trace := trace w |}.

Definition setDraws (d : list Q) (w : World) : World :=
  {| table := table w; clock := clock w; draws := d;
     replies := replies w; calls := calls w; trace := trace w |}.

Definition setReplies (r : list Reply) (w : World) : World :=
  {| table := table w; clock := clock w; draws := draws w;
     replies := r; calls := calls w; trace := trace w |}.

Definition setCalls (n : nat) (w : World) : World :=
  {| table := table w; clock := clock w; draws := draws w;
     replies := replies w; calls := n; trace := trace w |}.

Definition emit (e : Event) (w : World) : World :=
  {| table := table w; clock := clock w; draws := draws w;
     replies := replies w; calls := calls w; trace := trace w ++ [e] |}.

(** The outcome of awaiting a promise: fulfilled or rejected. *)
Inductive Result (E A : Type) : Type :=
| Returned (a : A)
| Threw (e : E).

Arguments Returned {E A} a.
Arguments Threw {E A} e.

(** An asynchronous function whose rejections have type [E]. *)
Definition M (E A : Type) : Type := World -> Result E A * World.

Definition ret {E A} (a : A) : M E A := fun w => (Returned a, w).

Definition throw {E A} (e : E) : M E A := fun w => (Threw e, w).

Definition bind {E A B} (m : M E A) (k : A -> M E B) : M E B :=
  fun w =>
    match m w with
    | (Returned a, w') => k a w'
    | (Threw e, w') => (Threw e, w')
    end.

(** [try { body } catch (error) { handler }]: the effects of [body] up to
    the throw stay in the world. *)
Definition tryCatch {E1 E2 A} (body : M E1 A) (handler : E1 -> M E2 A)
  : M E2 A :=
  fun w =>
    match body w with
    | (Returned a, w') => (Returned a, w')
    | (Threw e, w') => handler e w'
    end.

(** Inside a [try] block that mutates an instance: a throw of [m] reaches the
    [catch] block together with the instance as assigned so far. *)
Definition seeing {E A} (inst : ScheduledPost) (m : M E A)
  : M (E * ScheduledPost) A :=
  fun w =>
    match m w with
    | (Returned a, w') => (Returned a, w')
    | (Threw e, w') => (Threw (e, inst), w')
    end.

Declare Scope async_scope.
Delimit Scope async_scope with async.
Bind Scope async_scope with M.

Notation "x <- m ;; k" := (bind m (fun x => k))
  (at level 61, m at next level, right associativity) : async_scope.
Notation "m ;; k" := (bind m (fun _ => k))
  (at level 61, right associativity) : async_scope.

Local Open Scope async_scope.

(** [for (const x of xs) { body }]. *)
Fixpoint forEach {E A} (xs : list A) (body : A -> M E unit) : M E unit :=
  match xs with
  | [] => ret tt
  | x :: rest => body x ;; forEach rest body
  end.

(** ** Primitives *)

(** Modelled from the spec: [logger.info(...)], [logger.warn(...)] and
    [logger.error(...)] of [utils/logger], which is not among the sources.
    The message is recorded; the object passed as second argument is not. *)
Definition log {E} (lvl : Level) (msg : list Piece) : M E unit :=
  fun w => (Returned tt, emit (Logged lvl msg) w).

Definition consoleError {E} (msg : list Piece) : M E unit :=
  fun w => (Returned tt, emit (Console msg) w).

(** [Math.random()]: the next draw (0 once the supply is used up). *)
Definition random {E} : M E Q :=
  fun w => (Returned (hd 0%Q (draws w)), setDraws (tl (draws w)) w).

(** [new Date()]. *)
Definition newDate {E} : M E Z := fun w => (Returned (clock w), w).

(** [await sleep(ms)]: the timer fires once the whole milliseconds of [ms]
    have passed. *)
Definition sleep {E} (ms : Q) : M E unit :=
  fun w =>
    (Returned tt,
     emit (Slept ms) (setClock (clock w + Z.max 0 (Qfloor ms)) w)).

(** The [n]-th of the replies to come (a success with an empty payload once
    the script is used up), and whether a reply is a success. *)
Definition reply (n : nat) (w : World) : Reply :=
  nth n (replies w) (Succeeds "").

Definition succeeds (r : Reply) : bool :=
  match r with Succeeds _ => true | Rejects _ => false end.

(** One call to the database or to the remote API: the next reply. *)
Definition external {E} : M E Reply :=
  fun w => (Returned (reply 0 w), setReplies (tl (replies w)) w).

(** [calculateExponentialBackoff(attempt, baseDelay)] as called: it draws
    from [Math.random]. *)
Definition backoff {E} (attempt : Z) (baseDelay : Q) : M E Q :=
  rnd <- random ;;
  ret (Backoff.calculateExponentialBackoff
         rnd attempt baseDelay Backoff.defaultMaxDelay).

(** An operation handed to [retryWithBackoff] whose [k]-th invocation
    (counting from 0) has the outcome [script k]. *)
Definition scripted {T} (script : nat -> Result Thrown T) : M Thrown T :=
  fun w => (script (calls w), setCalls (S (calls w)) w).

End Async.

(* ================================================================== *)
(** * [utils/retry.ts]: [retryWithBackoff]                              *)
(* ================================================================== *)

Module Retry.

Import Js Async.
Local Open Scope string_scope.
Local Open Scope bool_scope.
Local Open Scope Z_scope.
Local Open Scope async_scope.

Section RetryWithBackoff.

Variable T : Type.
Variable fn : M Thrown T.
Variable maxAttempts : Z.
Variable operationName : string.
Variable baseDelay : Q.

(** The error thrown after the loop:
<<
      `${operationName} failed after ${maxAttempts} attempts: ` +
      `${lastError?.message}`
>>
    (an absent [lastError] renders as [undefined]). *)
Definition exhausted (lastError : option JsError) : JsError :=
  newError
    (operationName ++ " failed after " ++ showZ maxAttempts ++ " attempts: "
     ++ match lastError with
        | Some e => message e
        | None => "undefined"
        end).

(** The condition of the [if] in the [catch] block; [&&] binds tighter
    than [||]:
<<
      lastError.message.includes('ENOTFOUND') ||
      lastError.message.includes('ECONNREFUSED') &&
      attempt === maxAttempts - 1
>> *)
Definition rethrows (lastError : JsError) (attempt : Z) : bool :=
  includes "ENOTFOUND" (message lastError)
  || (includes "ECONNREFUSED" (message lastError)
      && (attempt =? maxAttempts - 1)).

(** The first statement of the [try] block: [if (attempt > 0) { ... }]. *)
Definition waitBeforeRetry (attempt : Z) : M Thrown unit :=
  if 0 <? attempt then
    delay <- backoff (attempt - 1) baseDelay ;;
    log Info [Txt operationName; Txt ": Attempting retry ";
              Num (attempt + 1); Txt "/"; Num maxAttempts;
              Txt " after "; Millis delay; Txt "ms"] ;;
    sleep delay
  else ret tt.

(** The [for] loop, from the iteration with index [attempt] on, with
    [remaining] iterations left before [attempt < maxAttempts] fails; when
    none is left the statement after the loop throws. *)
Fixpoint attemptsFrom (remaining : nat) (attempt : Z)
    (lastError : option JsError) : M JsError T :=
  match remaining with
  | O => throw (exhausted lastError)
  | S remaining' =>
    tryCatch
      (waitBeforeRetry attempt ;;
       fn)
      (fun error =>
         let lastError := toError error in
         log Warn [Txt operationName; Txt " attempt "; Num (attempt + 1);
                   Txt " failed:"] ;;
         if rethrows lastError attempt then throw lastError
         else attemptsFrom remaining' (attempt + 1) (Some lastError))
  end.

(** [retryWithBackoff(fn, maxAttempts, operationName, baseDelay)], for an
    integer [maxAttempts]: the loop
    [for (let attempt = 0; attempt < maxAttempts; attempt++)] has
    [Z.to_nat maxAttempts] iterations. *)
Definition retryWithBackoff : M JsError T :=
  attemptsFrom (Z.to_nat maxAttempts) 0 None.

End RetryWithBackoff.

(** The two message signatures the [catch] block looks for: an error is
    classified as non-retriable infrastructure failure when its message
    carries one of them. *)
Definition infrastructureSignature (msg : string) : bool :=
  includes "ENOTFOUND" msg || includes "ECONNREFUSED" msg.

(** [retryExternalAPICall(fn, operationName, maxRetries = 3)]. *)
Definition retryExternalAPICall {T} (fn : M Thrown T) (operationName : string)
    (maxRetries : Z) : M JsError T :=
  retryWithBackoff fn maxRetries operationName 1500%Q.

End Retry.

(* ================================================================== *)
(** * The job store: the Sequelize model [ScheduledPost]                *)
(* ================================================================== *)

Module Store.

Import Js Model Async.
Local Open Scope string_scope.
Local Open Scope bool_scope.
Local Open Scope async_scope.

Definition hasId (i : string) (p : ScheduledPost) : bool :=
  String.eqb (id p) i.

(** Modelled from the spec: the job store is the model [ScheduledPost],
    built on the Sequelize library; neither is among the sources.  [save] is
    the atomic write of one post's full current state.  Writing one row by
    primary key: the row with that id is replaced where it stands; a row
    with a new id is added. *)
Definition upsert (p : ScheduledPost) (rows : list ScheduledPost)
  : list ScheduledPost :=
  if existsb (hasId (id p)) rows
  then map (fun r => if hasId (id p) r then p else r) rows
  else rows ++ [p].

(** A database call that fails rejects with the driver's error. *)
Definition query {A} (answer : World -> A * World) : M JsError A :=
  r <- external ;;
  match r with
  | Rejects msg => throw (newError msg)
  | Succeeds _ => fun w => let (a, w') := answer w in (Returned a, w')
  end.

(** [await post.save()]: the instance's current state is written. *)
Definition save (post : ScheduledPost) : M JsError unit :=
  query (fun w => (tt, setTable (upsert post (table w)) w)).

(** [await ScheduledPost.findByPk(postId, ...)]: a fresh instance, or
    [null]. *)
Definition findByPk (postId : string) : M JsError (option ScheduledPost) :=
  query (fun w => (find (hasId postId) (table w), w)).

(** [await ScheduledPost.findAll({ where, limit })]: no [order] is given, so
    the rows come in the order the database scans them. *)
Definition select (where_ : ScheduledPost -> bool) (limit : nat)
    (rows : list ScheduledPost) : list ScheduledPost :=
  firstn limit (filter where_ rows).

Definition findAll (where_ : ScheduledPost -> bool) (limit : nat)
  : M JsError (list ScheduledPost) :=
  query (fun w => (select where_ limit (table w), w)).

End Store.

(* ================================================================== *)
(** * The executor: [AutopilotService.executeScheduledPost]             *)
(* ================================================================== *)

Module Autopilot.

Import Js Model Async Store.
Local Open Scope string_scope.
Local Open Scope bool_scope.
Local Open Scope async_scope.

(** [new ScheduledPostError(message, postId, retryCount, originalError)];
    the constructor prints the original error when there is one. *)
Definition newScheduledPostError {E} (msg : string) (postId : string)
    (retryCount : Z) (originalError : option JsError) : M E JsError :=
  match originalError with
  | Some o =>
      consoleError [Txt "Original scheduled post error:"; Txt (message o)]
  | None => ret tt
  end ;;
  ret {| errClass := ScheduledPostError; message := msg;
         errPostId := Some postId; errRetryCount := Some retryCount |}.

(** [FacebookService.publishPost(pageId, accessToken, message)], taken at
    the boundary of [makeRequest]: the Graph API call answers with the id of
    the new post, or [makeRequest] rejects with a [FacebookAPIError] (it
    wraps every failure in one). *)
Definition publishPost (pageId accessToken content : string)
  : M JsError string :=
  log Info [Txt "Publishing post to page "; Txt pageId] ;;
  r <- external ;;
  match r with
  | Succeeds resultId => ret resultId
  | Rejects msg => throw (newFacebookAPIError msg)
  end.

(** [post.facebookAccount] followed by a property read: a [TypeError] when
    the association is [null]. *)
Definition accountOf (post : ScheduledPost) : M JsError FacebookAccount :=
  match facebookAccount post with
  | Some account => ret account
  | None =>
      throw (newError "Cannot read properties of null (reading 'pageId')")
  end.

Definition orEmpty (s : option string) : string :=
  match s with Some x => x | None => "" end.

(** The [try] block of [executeScheduledPost], for the instance [post]
    returned by [findByPk]. *)
Definition publishAttempt (postId : string) (post : ScheduledPost)
  : M (JsError * ScheduledPost) (option ScheduledPost) :=
  let post := setStatus processing post in
  seeing post (save post) ;;
  log Info [Txt "Post status updated to processing"] ;;
  account <- seeing post (accountOf post) ;;
  (if falsy (pageId account) || falsy (pageAccessToken account) then
     e <- newScheduledPostError "Account not properly configured"
            postId (retryCountOf post) None ;;
     throw (e, post)
   else ret tt) ;;
  log Info [Txt "Publishing to Facebook"] ;;
  resultId <- seeing post
                (publishPost (orEmpty (pageId account))
                   (orEmpty (pageAccessToken account)) (content post)) ;;
  let post := setPublishedContentId resultId (setStatus published post) in
  now <- newDate ;;
  let post := setPublishedAt now post in
  seeing post (save post) ;;
  log Info [Txt "Post published successfully"] ;;
  ret (Some post).

(** The [catch] block of [executeScheduledPost]; [post] is the instance as
    the [try] block left it. *)
Definition publishFailed (postId : string) (thrown : JsError * ScheduledPost)
  : M JsError (option ScheduledPost) :=
  let (error, post) := thrown in
  log Err [Txt "Failed to execute scheduled post"] ;;
  let post := setErrorMessage (message error) (setStatus failed post) in
  save post ;;
  if isFacebookAPIError error then throw error
  else
    e <- newScheduledPostError
           ("Failed to execute scheduled post: " ++ message error)
           postId (retryCountOf post) (Some error) ;;
    throw e.

(** [AutopilotService.executeScheduledPost(postId)]; [null] is [None]. *)
Definition executeScheduledPost (postId : string)
  : M JsError (option ScheduledPost) :=
  log Info [Txt "Executing scheduled post"] ;;
  found <- findByPk postId ;;
  match found with
  | None =>
      log Warn [Txt "Post not found or not in pending status"] ;;
      ret None
  | Some post =>
      if negb (Status_eqb (status post) pending) then
        log Warn [Txt "Post not found or not in pending status"] ;;
        ret None
      else
        tryCatch (publishAttempt postId post) (publishFailed postId)
  end.

End Autopilot.

(* ================================================================== *)
(** * The scheduled-posts job                                           *)
(* ================================================================== *)

Module Job.

Import Js Model Async Store Autopilot.
Local Open Scope string_scope.
Local Open Scope bool_scope.
Local Open Scope Z_scope.
Local Open Scope async_scope.

Definition MAX_RETRIES : Z := 3.

(** The [where] option of the batch query:
<<
      [Op.or]: [ { status: 'pending' },
                 { status: 'failed',
                   [Op.and]: { [Op.or]: [
                     { metadata: { [Op.is]: null } },
                     { 'metadata.retryCount':
                         { [Op.lt]: MAX_RETRIES } } ] } } ],
      scheduledFor: { [Op.lte]: now }
>>
    A comparison on a JSON key that is absent is not true. *)
Definition metadataIsNull (p : ScheduledPost) : bool :=
  match metadata p with None => true | Some _ => false end.

Definition storedRetryCountBelow (bound : Z) (p : ScheduledPost) : bool :=
  match metadata p with
  | Some m => match retryCount m with
              | Some n => n <? bound
              | None => false
              end
  | None => false
  end.

Definition dueForProcessing (now : Z) (p : ScheduledPost) : bool :=
  (Status_eqb (status p) pending
   || (Status_eqb (status p) failed
       && (metadataIsNull p || storedRetryCountBelow MAX_RETRIES p)))
  && (scheduledFor p <=? now).

(** The [limit] option of the batch query. *)
Definition batchLimit : nat := 10.

(** The first statement of the [try] block of [processScheduledPost]:
    [if (retryCount > 0) { ... }]. *)
Definition backoffBeforeRetry (post : ScheduledPost) (retryCount : Z)
  : M (JsError * ScheduledPost) unit :=
  if 0 <? retryCount then
    delay <- backoff (retryCount - 1) Backoff.defaultBaseDelay ;;
    log Info [Txt "Applying backoff delay of "; Millis delay;
              Txt "ms for post "; Txt (id post)] ;;
    sleep delay
  else ret tt.

(** The rest of the [try] block: mark as processing, execute. *)
Definition markAndExecute (post : ScheduledPost)
  : M (JsError * ScheduledPost) unit :=
  let post := setStatus processing post in
  seeing post (save post) ;;
  seeing post (executeScheduledPost (id post)) ;;
  log Info [Txt "Successfully published scheduled post: "; Txt (id post)].

(** The [try] block of [processScheduledPost]. *)
Definition executionAttempt (post : ScheduledPost) (retryCount : Z)
  : M (JsError * ScheduledPost) unit :=
  backoffBeforeRetry post retryCount ;;
  markAndExecute post.

(** The [catch] block of [processScheduledPost]; [post] is the instance as
    the [try] block left it. *)
Definition executionFailed (retryCount : Z)
    (thrown : JsError * ScheduledPost) : M JsError unit :=
  let (error, post) := thrown in
  let newRetryCount := retryCount + 1 in
  log Err [Txt "Failed to publish post "; Txt (id post); Txt " (attempt ";
           Num newRetryCount; Txt "/"; Num MAX_RETRIES; Txt ")"] ;;
  post <-
    (if newRetryCount <? MAX_RETRIES then
       now <- newDate ;;
       let post :=
         setMetadata
           (withRetry newRetryCount (message error) now
              (spread (metadata post))) post in
       let post := setStatus pending post in
       nextRetryAfter <- backoff (newRetryCount - 1)
                           Backoff.defaultBaseDelay ;;
       log Info [Txt "Post "; Txt (id post); Txt " will be retried"] ;;
       ret post
     else
       let post := setStatus failed post in
       let post := setErrorMessage (message error) post in
       now <- newDate ;;
       let post :=
         setMetadata
           (withFinal newRetryCount (message error) now
              (spread (metadata post))) post in
       log Err [Txt "Post "; Txt (id post);
                Txt " failed permanently after "; Num MAX_RETRIES;
                Txt " retries"] ;;
       ret post) ;;
  save post ;;
  e <- newScheduledPostError
         ("Failed to publish scheduled post: " ++ message error)
         (id post) newRetryCount (Some error) ;;
  throw e.

(** [processScheduledPost(post)]. *)
Definition processScheduledPost (post : ScheduledPost) : M JsError unit :=
  let retryCount := retryCountOf post in
  log Info [Txt "Processing scheduled post "; Txt (id post)] ;;
  tryCatch (executionAttempt post retryCount) (executionFailed retryCount).

(** The [for] loop of the handler: each post in its own [try]. *)
Definition processBatch (posts : list ScheduledPost) : M JsError unit :=
  forEach posts
    (fun post =>
       tryCatch (processScheduledPost post)
         (fun error : JsError =>
            log Err [Txt "Failed to process post "; Txt (id post)])).

(** The handler that [startScheduledPostsJob] registers with
    [cron.schedule('*/5 * * * *', ...)]: one tick of the scheduler. *)
Definition scheduledPostsTick : M JsError unit :=
  log Info [Txt "Starting scheduled posts check..."] ;;
  tryCatch
    (now <- newDate ;;
     posts <- findAll (dueForProcessing now) batchLimit ;;
     log Info [Txt "Found "; Num (Z.of_nat (List.length posts));
               Txt " posts to process"] ;;
     processBatch posts)
    (fun error : JsError => log Err [Txt "Scheduled posts job error"]).

(** [startScheduledPostsJob()]: the handler is registered with the cron
    library, and the registration is logged. *)
Definition startScheduledPostsJob : M JsError unit :=
  log Info [Txt "Scheduled posts job started (runs every 5 minutes)"].

(** The cadence: the handler fires at every fifth minute.  Between two
    firings the clock moves to the next such instant. *)
Definition cadenceMs : Z := 5 * 60 * 1000.

Definition nextFiring (now : Z) : Z := (now / cadenceMs + 1) * cadenceMs.

(** The world after [n] firings of the handler. *)
Fixpoint runSchedule (n : nat) (w : World) : World :=
  match n with
  | O => w
  | S n' =>
      runSchedule n'
        (snd (scheduledPostsTick (setClock (nextFiring (clock w)) w)))
  end.

(** ** Notions used to state the properties *)

(** The posts on which [processScheduledPost] was entered, read off its
    first log line, oldest first. *)
Definition startedProcessing (e : Event) : option string :=
  match e with
  | Logged Info [Txt line; Txt postId] =>
      if String.eqb line "Processing scheduled post " then Some postId
      else None
  | _ => None
  end.

Fixpoint attempted (events : list Event) : list string :=
  match events with
  | [] => []
  | e :: rest =>
      match startedProcessing e with
      | Some postId => postId :: attempted rest
      | None => attempted rest
      end
  end.

(** A post that has used up its retries. *)
Definition terminal (p : ScheduledPost) : Prop :=
  status p = failed /\ retryCountOf p = MAX_RETRIES.

(** The row [t] is in the table, whose primary keys are [ids]. *)
Definition keptAside (t : ScheduledPost) (ids : list string) (w : World)
  : Prop :=
  In t (table w) /\ map id (table w) = ids.

(** The row stored under a primary key. *)
Definition stored (postId : string) (w : World) : option ScheduledPost :=
  find (hasId postId) (table w).

(** The world in which the [try] block of [processScheduledPost] starts:
    the first log line has been written. *)
Definition entering (post : ScheduledPost) (w : World) : World :=
  emit (Logged Info [Txt "Processing scheduled post "; Txt (id post)]) w.

(** The delay that [processScheduledPost] computes for a retry from the
    world [w]. *)
Definition retryDelay (post : ScheduledPost) (w : World) : Q :=
  Backoff.calculateExponentialBackoff (hd 0%Q (draws w))
    (retryCountOf post - 1) Backoff.defaultBaseDelay
    Backoff.defaultMaxDelay.

(** A row is within its retries: its retry count is at most [MAX_RETRIES],
    and below it while the row waits for an attempt. *)
Definition withinRetries (p : ScheduledPost) : Prop :=
  retryCountOf p <= MAX_RETRIES
  /\ (status p = pending -> retryCountOf p < MAX_RETRIES).

Definition retriesBounded (w : World) : Prop :=
  forall p, In p (table w) -> withinRetries p.

(** The delays of the sleeps among some events, oldest first. *)
Fixpoint sleeps (events : list Event) : list Q :=
  match events with
  | [] => []
  | Slept ms :: rest => ms :: sleeps rest
  | _ :: rest => sleeps rest
  end.

End Job.

(* ================================================================== *)
(** * Connecting at startup: the callers of [retryWithBackoff]          *)
(* ================================================================== *)

Module Startup.

Import Js Async Retry.
Local Open Scope string_scope.
Local Open Scope async_scope.

(** One call to a dependency that answers or rejects with the driver's
    error: [sequelize.authenticate()], [redis.ping()]. *)
Definition dependencyCall : M Thrown unit :=
  r <- external ;;
  match r with
  | Succeeds _ => ret tt
  | Rejects msg => throw (ThrownError (newError msg))
  end.

(** [connectDatabaseWithRetry()]:
<<
      return retryWithBackoff(
        async () => {
          await sequelize.authenticate();
          logger.info('Database connection successful');
        }, 5, 'Database connection', 2000);
>> *)
Definition connectDatabaseWithRetry : M JsError unit :=
  retryWithBackoff
    (dependencyCall ;; log Info [Txt "Database connection successful"])
    5 "Database connection" 2000%Q.

(** [connectRedis()] of [config/redis]; registering the two listeners has
    no effect of its own.
<<
      try { redis.on(...); redis.on(...); await redis.ping(); }
      catch (error) { logger.error('Redis connection failed', ...);
                      throw error; }
>> *)
Definition connectRedis : M Thrown unit :=
  tryCatch dependencyCall
    (fun error => log Err [Txt "Redis connection failed"] ;; throw error).

(** [connectRedisWithRetry()]. *)
Definition connectRedisWithRetry : M JsError unit :=
  retryWithBackoff
    (connectRedis ;; log Info [Txt "Redis connection successful"])
    5 "Redis connection" 1000%Q.

(** What one call to a dependency gives, by its reply. *)
Definition attemptOutcome (r : Reply) : Result Thrown unit :=
  match r with
  | Succeeds _ => Returned tt
  | Rejects msg => Threw (ThrownError (newError msg))
  end.

(** The sum of some delays. *)
Definition total (delays : list Q) : Q := fold_right Qplus 0%Q delays.

(** An operation that leaves the random source and the sleeps alone. *)
Definition drawsNothing {E A} (fn : M E A) : Prop :=
  forall w,
    draws (snd (fn w)) = draws w
    /\ Job.sleeps (trace (snd (fn w))) = Job.sleeps (trace w).

End Startup.

(* ================================================================== *)
(** * The times of the automatic posts                                  *)
(* ================================================================== *)

Module Planner.

Local Open Scope Z_scope.

Definition hourMs : Z := 3600000.
Definition dayMs : Z := 86400000.

(** Local midnight of the day of [now], for a server whose local time is
    [zone] milliseconds ahead of UTC (changes of the offset during the
    year are not modelled). *)
Definition startOfDay (zone now : Z) : Z := now - (now + zone) mod dayMs.

(** [AutopilotService.calculateNextPostTime(preferredHours, offset)], for
    whole hours and the index [offset] of the loop that calls it; [now] is
    what [new Date()] returns.  An empty [preferredHours] makes the day an
    Invalid Date, [None].
<<
      const now = new Date();
      const tomorrow = new Date(now);
      tomorrow.setDate(tomorrow.getDate()
                       + Math.floor(offset / preferredHours.length));
      const hourIndex = offset % preferredHours.length;
      tomorrow.setHours(preferredHours[hourIndex], 0, 0, 0);
      return tomorrow;
>> *)
Definition calculateNextPostTime (zone : Z) (preferredHours : list Z)
    (offset : nat) (now : Z) : option Z :=
  match preferredHours with
  | [] => None
  | _ =>
    let len := Z.of_nat (List.length preferredHours) in
    let days := Z.of_nat offset / len in
    let hourIndex := Z.of_nat offset mod len in
    Some (startOfDay zone now + days * dayMs
          + nth (Z.to_nat hourIndex) preferredHours 0 * hourMs)
  end.

(** The default of [settings.preferredHours || [9, 14, 19]]. *)
Definition defaultPreferredHours : list Z := [9; 14; 19].

(** Hours of a day, in increasing order. *)
Definition increasingHours (hours : list Z) : Prop :=
  (forall h, In h hours -> 0 <= h < 24)
  /\ forall a b, (a < b < List.length hours)%nat ->
       nth a hours 0 < nth b hours 0.

End Planner.

(* ================================================================== *)
(** * HTTP errors: [utils/customErrors] and the error handler           *)
(* ================================================================== *)

Module Http.

Import Js.
Local Open Scope string_scope.
Local Open Scope bool_scope.
Local Open Scope Z_scope.

(** The classes of [utils/customErrors]. *)
Inductive Class : Type :=
| CBase | CValidation | CAuth | CAuthorization | CNotFound | CRateLimit
| CDatabase | CExternalService | COpenAI | CFacebookAPI | CConfiguration
| CScheduledPost.

(** The fields of a [BaseError] that the handler reads. *)
Record BaseError : Type := {
  class : Class;
  text : string;               (* message *)
  statusCode : Z;
  isOperational : bool;
  errorCode : option string
}.

(** [s.toUpperCase()], for ASCII letters. *)
Definition upperChar (c : Ascii.ascii) : Ascii.ascii :=
  let n := Ascii.nat_of_ascii c in
  if (97 <=? n)%nat && (n <=? 122)%nat
  then Ascii.ascii_of_nat (n - 32) else c.

Fixpoint toUpperCase (s : string) : string :=
  match s with
  | EmptyString => EmptyString
  | String c rest => String (upperChar c) (toUpperCase rest)
  end.

(** [new BaseError(message, statusCode = 500, isOperational = true,
    errorCode)]. *)
Definition newBaseError (cls : Class) (msg : string) (status : Z)
    (operational : bool) (code : option string) : BaseError :=
  {| class := cls; text := msg; statusCode := status;
     isOperational := operational; errorCode := code |}.

(** [new ValidationError(message = 'Validation failed', details)]. *)
Definition newValidationError (msg : string) : BaseError :=
  newBaseError CValidation msg 400 true (Some "VALIDATION_ERROR").

(** [errorCode || dflt]: [undefined] and [''] are falsy. *)
Definition orCode (code : option string) (dflt : string) : string :=
  match code with
  | None | Some EmptyString => dflt
  | Some c => c
  end.

(** [new AuthError(message = 'Authentication failed', errorCode)]. *)
Definition newAuthError (msg : string) (code : option string) : BaseError :=
  newBaseError CAuth msg 401 true (Some (orCode code "AUTHENTICATION_ERROR")).

(** [new AuthorizationError(message = 'Access denied')]. *)
Definition newAuthorizationError (msg : string) : BaseError :=
  newBaseError CAuthorization msg 403 true (Some "AUTHORIZATION_ERROR").

(** [new NotFoundError(resource = 'Resource')]. *)
Definition newNotFoundError (resource : string) : BaseError :=
  newBaseError CNotFound (resource ++ " not found") 404 true
    (Some "NOT_FOUND_ERROR").

(** [new RateLimitError(message = 'Too many requests')]. *)
Definition newRateLimitError (msg : string) : BaseError :=
  newBaseError CRateLimit msg 429 true (Some "RATE_LIMIT_EXCEEDED").

(** [new DatabaseError(message = 'Database operation failed', ...)]. *)
Definition newDatabaseError (msg : string) : BaseError :=
  newBaseError CDatabase msg 500 true (Some "DATABASE_ERROR").

(** [new ExternalServiceError(service, message, statusCode = 502, ...)],
    for the subclass [cls]. *)
Definition newExternalServiceError (cls : Class) (service msg : string)
    (status : Z) : BaseError :=
  newBaseError cls msg status true (Some (toUpperCase service ++ "_ERROR")).

(** [new OpenAIError(message, originalError)]: the status is 429 when the
    message of the original error contains '429', else 502. *)
Definition newOpenAIError (msg : string) (originalMessage : option string)
  : BaseError :=
  newExternalServiceError COpenAI "OpenAI" msg
    (match originalMessage with
     | Some m => if includes "429" m then 429 else 502
     | None => 502
     end).

(** [new FacebookAPIError(message, statusCode, originalError)]:
<<
      super('Facebook', message, 502, originalError);
      if (statusCode) { this.statusCode = statusCode; }
      if (statusCode === 401 || message.includes('token')) {
        this.statusCode = 401;
      } else if (statusCode === 403) { this.statusCode = 403; }
      else if (statusCode === 429) { this.statusCode = 429; }
>> *)
Definition truthyNumber (n : option Z) : bool :=
  match n with
  | Some k => negb (k =? 0)
  | None => false
  end.

Definition isNumber (n : option Z) (k : Z) : bool :=
  match n with
  | Some m => m =? k
  | None => false
  end.

Definition newFacebookAPIError (msg : string) (status : option Z)
  : BaseError :=
  let initial :=
    if truthyNumber status
    then match status with Some k => k | None => 502 end
    else 502 in
  let final :=
    if isNumber status 401 || includes "token" msg then 401
    else if isNumber status 403 then 403
    else if isNumber status 429 then 429
    else initial in
  newExternalServiceError CFacebookAPI "Facebook" msg final.

(** [new ConfigurationError(message)]. *)
Definition newConfigurationError (msg : string) : BaseError :=
  newBaseError CConfiguration msg 500 true (Some "CONFIGURATION_ERROR").

(** [new ScheduledPostError(message, postId, retryCount, originalError)]. *)
Definition newScheduledPostError (msg : string) : BaseError :=
  newBaseError CScheduledPost msg 500 true (Some "SCHEDULED_POST_ERROR").

(** What [makeRequest] of [FacebookService] catches: an error of the HTTP
    client or of [retryWithBackoff].  [httpStatus] is
    [error.response?.status], [graphMessage] is
    [error.response?.data?.error?.message], [clientCode] is [error.code]. *)
Record RequestFailure : Type := {
  httpStatus : option Z;
  graphMessage : option string;
  failureMessage : string;
  clientCode : option string
}.

(** [a || b] on strings: the empty string is falsy. *)
Definition orText (a : option string) (b : string) : string :=
  match a with
  | None | Some EmptyString => b
  | Some x => x
  end.

Definition isCode (c : option string) (k : string) : bool :=
  match c with
  | Some x => String.eqb x k
  | None => false
  end.

(** The [catch] block of [FacebookService.makeRequest]: the error it
    throws. *)
Definition requestFailed (error : RequestFailure) : BaseError :=
  let statusCode := httpStatus error in
  let errorMessage := orText (graphMessage error) (failureMessage error) in
  if isNumber statusCode 401 || includes "expired" errorMessage
     || includes "invalid" errorMessage
  then newFacebookAPIError
         ("Authentication token expired or invalid. "
          ++ "Please reconnect your Facebook account.") (Some 401)
  else if isNumber statusCode 403
  then newFacebookAPIError
         "Access denied. Please check your Facebook permissions." (Some 403)
  else if isNumber statusCode 429
  then newFacebookAPIError "Rate limit exceeded. Please try again later."
         (Some 429)
  else if isCode (clientCode error) "ECONNABORTED"
          || isCode (clientCode error) "ETIMEDOUT"
  then newFacebookAPIError
         "Request timed out. Please check your network connection."
         (Some 504)
  else newFacebookAPIError ("Facebook API error: " ++ errorMessage)
         (Some (if truthyNumber statusCode
                then match statusCode with Some k => k | None => 500 end
                else 500)).

(** What the error handler receives ([error: any]): where it comes from
    (what [instanceof] sees) with its [message], and the fields [name] and
    [statusCode] of an error that is not a [BaseError].  A [SyntaxError]
    always has a message; elsewhere [message] can be missing. *)
Inductive Origin : Type :=
| SequelizeValidation (m : option string)  (* SequelizeValidationError *)
| UniqueConstraint (m : option string)     (* UniqueConstraintError *)
| Custom (e : BaseError)                   (* instanceof BaseError *)
| Syntax (m : string)                      (* instanceof SyntaxError *)
| Elsewhere (m : option string).

Record Raised : Type := {
  origin : Origin;
  name : string;
  rawStatus : option Z
}.

(** [error.message]. *)
Definition messageOf (error : Raised) : option string :=
  match origin error with
  | SequelizeValidation m | UniqueConstraint m | Elsewhere m => m
  | Custom e => Some (text e)
  | Syntax m => Some m
  end.

(** [error.statusCode]. *)
Definition statusOf (error : Raised) : option Z :=
  match origin error with
  | Custom e => Some (statusCode e)
  | _ => rawStatus error
  end.

Definition messageIncludes (needle : string) (m : option string) : bool :=
  match m with
  | Some x => includes needle x
  | None => false
  end.

(** [handledError]: the conversion at the head of [errorHandler], for
    [env = process.env.NODE_ENV]. *)
Definition isEnv (env : option string) (k : string) : bool :=
  match env with
  | Some e => String.eqb e k
  | None => false
  end.

Definition handled (env : option string) (error : Raised) : BaseError :=
  match origin error with
  | SequelizeValidation _ | UniqueConstraint _ =>
      newValidationError "Database validation error"
  | Custom e => e
  | _ =>
    if String.eqb (name error) "JsonWebTokenError"
    then newAuthError "Invalid token" (Some "INVALID_TOKEN")
    else if String.eqb (name error) "TokenExpiredError"
    then newAuthError "Token expired" (Some "TOKEN_EXPIRED")
    else if isNumber (statusOf error) 429
            || messageIncludes "Too many requests" (messageOf error)
    then newRateLimitError "Too many requests"
    else if match origin error with
            | Syntax m => includes "JSON" m
            | _ => false
            end
    then newValidationError "Invalid JSON payload"
    else
      newBaseError CBase
        (if isEnv env "production" then "Internal server error"
         else orText (messageOf error) "Internal server error")
        500 false (Some "SERVER_ERROR")
  end.

(** The response that [errorHandler] sends: the status of
    [res.status(...)] and the body; [stack] is left out. *)
Record ErrorResponse : Type := {
  sentStatus : Z;
  bodyMessage : string;
  bodyCode : option string;
  bodyStatus : Z;
  bodyOriginalError : option string
}.

Definition errorHandler (env : option string) (error : Raised)
  : ErrorResponse :=
  let handledError := handled env error in
  {| sentStatus := statusCode handledError;
     bodyMessage :=
       if isEnv env "production" && negb (isOperational handledError)
       then "Internal server error" else text handledError;
     bodyCode := errorCode handledError;
     bodyStatus := statusCode handledError;
     bodyOriginalError :=
       if isEnv env "development" then messageOf error else None |}.

(** The texts that the handler itself writes into a response. *)
Definition handlerTexts : list string :=
  ["Database validation error"; "Invalid token"; "Token expired";
   "Too many requests"; "Invalid JSON payload"; "Internal server error"].

End Http.

(* ================================================================== *)
(** * Reasoning about asynchronous functions                            *)
(* ================================================================== *)

Module Wp.

Import Async.

(** [wp m Q w]: run from [w], the function [m] ends with a result and in a
    world that satisfy [Q]. *)
Definition wp {E A} (m : M E A) (Q : Result E A -> World -> Prop)
    (w : World) : Prop :=
  Q (fst (m w)) (snd (m w)).

(** [m] preserves the property [I] of worlds, whatever its result. *)
Definition keeps {E A} (I : World -> Prop) (m : M E A) : Prop :=
  forall w, I w -> wp m (fun _ w' => I w') w.

End Wp.

(* ================================================================== *)
(** * Sample inputs                                                     *)
(* ================================================================== *)

Module Samples.

Import Js Model Async.
Local Open Scope string_scope.
Local Open Scope Z_scope.

Definition page : FacebookAccount :=
  {| pageId := Some "page-1"; pageAccessToken := Some "token-1" |}.

(** A post as [scheduleAutoPosts] creates it, with the given id, status,
    due time and metadata. *)
Definition post (i : string) (s : Status) (due : Z) (m : option Metadata)
  : ScheduledPost :=
  {| id := i; status := s; scheduledFor := due; content := "hello";
     metadata := m; errorMessage := None; publishedContentId := None;
     publishedAt := None; facebookAccount := Some page |}.

(** A world with the given rows and replies, at time 1000. *)
Definition world (rows : list ScheduledPost) (answers : list Reply) : World :=
  {| table := rows; clock := 1000; draws := [(1 # 2)%Q; (1 # 4)%Q];
     replies := answers; calls := 0; trace := [] |}.

(** Two pending posts that are due at time 1000, the later one first. *)
Definition late : ScheduledPost := post "late" pending 900 None.
Definition early : ScheduledPost := post "early" pending 300 None.

(** A post that has failed once and is waiting for its second attempt. *)
Definition retrying : ScheduledPost :=
  post "retrying" pending 100
    (Some (withRetry 1 "socket hang up" 700 emptyMetadata)).

(** A post that has failed twice and is waiting for its last attempt. *)
Definition lastChance : ScheduledPost :=
  post "last-chance" pending 100
    (Some (withRetry 2 "socket hang up" 700 emptyMetadata)).

(** A post that is due in the future, and one that has been published. *)
Definition tomorrow : ScheduledPost := post "tomorrow" pending 90000000 None.

Definition done : ScheduledPost :=
  setPublishedAt 500 (setPublishedContentId "fb-17"
                        (post "done" published 100 None)).

(** A post that has used up its three attempts. *)
Definition spent : ScheduledPost :=
  post "spent" failed 100
    (Some (withFinal 3 "socket hang up" 700 emptyMetadata)).

(** Operations that fail at every invocation: the host name does not
    resolve; the connection is refused; the request times out. *)
Definition unresolved (k : nat) : Result Thrown unit :=
  Threw (ThrownError (newError "getaddrinfo ENOTFOUND db.internal")).

Definition refused (k : nat) : Result Thrown unit :=
  Threw (ThrownError (newError "connect ECONNREFUSED 127.0.0.1:5432")).

Definition timingOut (k : nat) : Result Thrown unit :=
  Threw (ThrownError (newError "timeout of 30000ms exceeded")).

(** An operation that times out once and then answers. *)
Definition secondTime (k : nat) : Result Thrown string :=
  match k with
  | O => Threw (ThrownError (newError "timeout of 30000ms exceeded"))
  | S _ => Returned "post-77"
  end.

End Samples.

(* ================================================================== *)
(** * Properties                                                        *)
(* ================================================================== *)

Unset Implicit Arguments.

(** ** BackoffPolicy *)

Module BackoffProps.

Import Backoff.
Local Open Scope Q_scope.

Lemma cappedDelay_nonneg attempt baseDelay maxDelay :
  0 <= baseDelay -> 0 <= maxDelay ->
  0 <= cappedDelay attempt baseDelay maxDelay.
Proof.
  intros Hb Hm. unfold cappedDelay. apply Q.min_glb; [|exact Hm].
  apply Qmult_le_0_compat; [exact Hb|]. apply Qpower_0_le. discriminate.
Qed.

Lemma cappedDelay_le_max attempt baseDelay maxDelay :
  cappedDelay attempt baseDelay maxDelay <= maxDelay.
Proof. apply Q.le_min_r. Qed.

(** The capped exponential does not decrease with the attempt index. *)
Lemma cappedDelay_mono a1 a2 baseDelay maxDelay :
  0 <= baseDelay -> (a1 <= a2)%Z ->
  cappedDelay a1 baseDelay maxDelay <= cappedDelay a2 baseDelay maxDelay.
Proof.
  intros Hb Ha. unfold cappedDelay. apply Q.min_le_compat_r.
  rewrite !(Qmult_comm baseDelay).
  apply Qmult_le_compat_r; [|exact Hb].
  apply Qpower_le_compat_l; [exact Ha|]. discriminate.
Qed.

Lemma jitter_bounds rnd c :
  unitDraw rnd -> 0 <= c ->
  0 <= rnd * (1 # 10) * c /\ rnd * (1 # 10) * c <= (1 # 10) * c.
Proof. intros [H0 H1] Hc. split; nra. Qed.



(** C4, as the code has it.  For non-negative [baseDelay] and [maxDelay],
    every draw of [Math.random] and all attempt indices [a2 > a1 >= 0], the
    delay at [a2] is at least the capped exponential at [a1], that is
    [min(baseDelay * 2^a1, maxDelay)]; and for every attempt index [a >= 0]
    the delay is at most [maxDelay * 1.1]. *)
Theorem backoff_monotone_up_to_cap rnd a1 a2 a baseDelay maxDelay :
  unitDraw rnd -> 0 <= baseDelay -> 0 <= maxDelay ->
  (0 <= a1 < a2)%Z -> (0 <= a)%Z ->
  Qmin (baseDelay * 2 ^ a1) maxDelay
  <= calculateExponentialBackoff rnd a2 baseDelay maxDelay
  /\ calculateExponentialBackoff rnd a baseDelay maxDelay
     <= maxDelay * (11 # 10).
Proof.
  intros Hr Hb Hm Ha12 Ha. split.
  - pose proof (cappedDelay_mono a1 a2 _ maxDelay Hb) as Hmono.
    pose proof (cappedDelay_nonneg a2 _ _ Hb Hm) as Hc.
    destruct (jitter_bounds _ _ Hr Hc) as [J0 _].
    fold (cappedDelay a1 baseDelay maxDelay).
    unfold calculateExponentialBackoff. cbv zeta.
    assert (a1 <= a2)%Z as Hle by lia. specialize (Hmono Hle). lra.
  - pose proof (cappedDelay_nonneg a _ _ Hb Hm) as Hc.
    pose proof (cappedDelay_le_max a baseDelay maxDelay) as Hcap.
    destruct (jitter_bounds _ _ Hr Hc) as [_ J1].
    unfold calculateExponentialBackoff. cbv zeta. lra.
Qed.

Lemma backoff_monotone_up_to_cap_witness :
  Qmin (1000 * 2 ^ 6) 30000
  <= calculateExponentialBackoff (1 # 2) 7 1000 30000
  /\ calculateExponentialBackoff (1 # 2) 0 1000 30000 <= 30000 * (11 # 10).
Proof.
  apply (backoff_monotone_up_to_cap (1 # 2) 6 7 0 1000 30000).
  - unfold unitDraw. split; lra.
  - lra.
  - lra.
  - lia.
  - lia.
Defined.

(** C4, as stated, fails once the exponential passes the cap: with the
    default delays and the attempt indices 6 < 7, the delay at 7 stays below
    [baseDelay * 2^6 = 64000] for a draw of 0 and for a draw close to 1. *)
Lemma backoff_below_uncapped_exponential :
  unitDraw 0 /\ unitDraw (999 # 1000) /\ (0 <= 6 < 7)%Z
  /\ ~ (1000 * 2 ^ 6 <= calculateExponentialBackoff 0 7 1000 30000)
  /\ ~ (1000 * 2 ^ 6
        <= calculateExponentialBackoff (999 # 1000) 7 1000 30000).
Proof.
  unfold unitDraw.
  repeat split; try lra; try lia; intros H; vm_compute in H; apply H;
    reflexivity.
Qed.

End BackoffProps.

(** ** RetryRunner *)

Module RetryProps.

Import Js Async Retry.
Local Open Scope string_scope.

Example includes_inside :
  includes "ECONNREFUSED" "connect ECONNREFUSED 127.0.0.1:5432" = true
  /\ includes "ENOTFOUND" "connect ECONNREFUSED 127.0.0.1:5432" = false
  /\ includes "" "" = true.
Proof. repeat split. Qed.

Example showZ_decimal :
  showZ 0 = "0" /\ showZ 35 = "35" /\ showZ (-2) = "-2".
Proof. repeat split. Qed.

Example database_reconnect_exhausted :
  fst (retryWithBackoff (scripted Samples.timingOut) 3 "Database connection"
         2000%Q (Samples.world [] []))
  = Threw (newError ("Database connection failed after 3 attempts: "
                     ++ "timeout of 30000ms exceeded")).
Proof. reflexivity. Qed.

Section Loop.

Variable T : Type.
Variable script : nat -> Result Thrown T.
Variable maxAttempts : Z.
Variable operationName : string.
Variable baseDelay : Q.

Local Abbreviation loop :=
  (attemptsFrom (scripted script) maxAttempts operationName baseDelay).

(** Waiting before a retry neither throws nor invokes the operation. *)
Lemma waitBeforeRetry_returns attempt w :
  exists w1,
    waitBeforeRetry maxAttempts operationName baseDelay attempt w
    = (Returned tt, w1)
    /\ calls w1 = calls w.
Proof.
  unfold waitBeforeRetry. destruct (0 <? attempt)%Z.
  - eexists. split; reflexivity.
  - eexists; split; reflexivity.
Qed.

(** One iteration of the loop, by the outcome of the invocation. *)
Lemma loop_step remaining attempt lastError w :
  exists w1, calls w1 = S (calls w) /\
  loop (S remaining) attempt lastError w =
  match script (calls w) with
  | Returned v => (Returned v, w1)
  | Threw t =>
      let w2 := emit (Logged Warn [Txt operationName; Txt " attempt ";
                                   Num (attempt + 1); Txt " failed:"]) w1 in
      if rethrows maxAttempts (toError t) attempt
      then (Threw (toError t), w2)
      else loop remaining (attempt + 1)%Z (Some (toError t)) w2
  end.
Proof.
  destruct (waitBeforeRetry_returns attempt w) as (w1 & H1 & Hc).
  exists (setCalls (S (calls w)) w1). split; [reflexivity|].
  unfold loop. cbn [attemptsFrom]. unfold tryCatch at 1. unfold bind at 1.
  rewrite H1. unfold scripted. rewrite Hc.
  destruct (script (calls w)) as [v|t]; [reflexivity|].
  unfold bind, log. cbv zeta.
  destruct (rethrows maxAttempts (toError t) attempt); reflexivity.
Qed.

(** The invocation counter never decreases along the loop. *)
Lemma loop_calls_mono remaining : forall attempt lastError w,
  (calls w <= calls (snd (loop remaining attempt lastError w)))%nat.
Proof.
  induction remaining as [|r IH]; intros attempt lastError w.
  - apply Nat.le_refl.
  - destruct (loop_step r attempt lastError w) as (w1 & Hc & ->).
    destruct (script (calls w)) as [v|t]; cbn [snd].
    + lia.
    + cbv zeta. destruct (rethrows maxAttempts (toError t) attempt).
      * cbn. lia.
      * etransitivity; [|apply IH]. cbn. lia.
Qed.

(** An iteration that is entered invokes the operation. *)
Lemma loop_invokes remaining attempt lastError w :
  (S (calls w)
   <= calls (snd (loop (S remaining) attempt lastError w)))%nat.
Proof.
  destruct (loop_step remaining attempt lastError w) as (w1 & Hc & ->).
  destruct (script (calls w)) as [v|t]; cbn [snd].
  - lia.
  - cbv zeta. destruct (rethrows maxAttempts (toError t) attempt).
    + cbn. lia.
    + etransitivity; [|apply loop_calls_mono]. cbn. lia.
Qed.

Lemma unclassified_not_rethrown t attempt :
  infrastructureSignature (message (toError t)) = false ->
  rethrows maxAttempts (toError t) attempt = false.
Proof.
  unfold infrastructureSignature, rethrows. intros H.
  apply orb_false_iff in H. destruct H as [-> ->]. reflexivity.
Qed.

(** When every invocation fails with an error that is not rethrown, the
    loop runs all its iterations and ends in the aggregate error. *)
Lemma loop_all_fail remaining : forall attempt lastError w,
  (forall k, exists t,
      script k = Threw t
      /\ infrastructureSignature (message (toError t)) = false) ->
  exists w' last,
    loop remaining attempt lastError w
    = (Threw (exhausted maxAttempts operationName last), w')
    /\ calls w' = (calls w + remaining)%nat
    /\ match remaining with
       | O => last = lastError
       | S r => exists t, script (calls w + r)%nat = Threw t
                          /\ last = Some (toError t)
       end.
Proof.
  induction remaining as [|r IH]; intros attempt lastError w Hall.
  - exists w, lastError. repeat split. symmetry. apply Nat.add_0_r.
  - destruct (loop_step r attempt lastError w) as (w1 & Hc & ->).
    destruct (Hall (calls w)) as (t & Ht & Hq). rewrite Ht. cbv zeta.
    rewrite (unclassified_not_rethrown _ _ Hq).
    destruct (IH (attempt + 1)%Z (Some (toError t))
                (emit (Logged Warn [Txt operationName; Txt " attempt ";
                                    Num (attempt + 1); Txt " failed:"]) w1)
                Hall) as (w' & last & Hrun & Hcalls & Hlast).
    exists w', last. split; [exact Hrun|]. cbn [calls emit] in Hcalls, Hlast.
    rewrite Hc in Hcalls, Hlast. split; [lia|].
    destruct r as [|r'].
    + exists t. rewrite Nat.add_0_r. split; [exact Ht|exact Hlast].
    + destruct Hlast as (t' & Ht' & ->). exists t'. split; [|reflexivity].
      rewrite <- Ht'. f_equal. lia.
Qed.

(** A prefix of failures that are not rethrown brings the loop to the
    iteration that follows them. *)
Lemma loop_skip k : forall remaining attempt lastError w,
  (forall j, (j < k)%nat ->
     exists t, script (calls w + j)%nat = Threw t
               /\ rethrows maxAttempts (toError t) (attempt + Z.of_nat j)
                  = false) ->
  exists w1 last,
    calls w1 = (calls w + k)%nat
    /\ loop (k + remaining) attempt lastError w
       = loop remaining (attempt + Z.of_nat k)%Z last w1.
Proof.
  induction k as [|k IH]; intros remaining attempt lastError w Hpre.
  - exists w, lastError. rewrite Nat.add_0_r, Z.add_0_r. split; reflexivity.
  - cbn [Nat.add].
    destruct (loop_step (k + remaining) attempt lastError w)
      as (w1 & Hc & ->).
    destruct (Hpre 0%nat ltac:(lia)) as (t & Ht & Hr).
    rewrite Nat.add_0_r in Ht. rewrite Z.add_0_r in Hr.
    rewrite Ht. cbv zeta. rewrite Hr.
    destruct (IH remaining (attempt + 1)%Z (Some (toError t))
                (emit (Logged Warn [Txt operationName; Txt " attempt ";
                                    Num (attempt + 1); Txt " failed:"]) w1))
      as (w2 & last & Hc2 & Hrun).
    { intros j Hj. destruct (Hpre (S j) ltac:(lia)) as (tj & Htj & Hrj).
      exists tj. cbn [calls emit]. rewrite Hc. split.
      - rewrite <- Htj. f_equal. lia.
      - rewrite <- Hrj. f_equal. lia. }
    exists w2, last. split.
    + rewrite Hc2. cbn [calls emit]. lia.
    + rewrite Hrun. f_equal. lia.
Qed.

End Loop.

(** C3.  For [maxAttempts = n >= 1] and an operation every invocation of
    which fails with an error that carries no infrastructure signature,
    [retryWithBackoff] invokes the operation exactly [n] times and then
    rejects with the aggregate error made of the label, the attempt count
    [n] and the message of the last underlying error. *)
Theorem retry_exhaustion T (script : nat -> Result Thrown T) n name base w :
  (1 <= n)%Z ->
  (forall k, exists t,
      script k = Threw t
      /\ infrastructureSignature (message (toError t)) = false) ->
  exists t w',
    script (calls w + Z.to_nat n - 1)%nat = Threw t
    /\ retryWithBackoff (scripted script) n name base w
       = (Threw (newError (name ++ " failed after " ++ showZ n
                           ++ " attempts: " ++ message (toError t))), w')
    /\ calls w' = (calls w + Z.to_nat n)%nat.
Proof.
  intros Hn Hall.
  destruct (loop_all_fail T script n name base (Z.to_nat n) 0%Z None w Hall)
    as (w' & last & Hrun & Hcalls & Hlast).
  destruct (Z.to_nat n) as [|r] eqn:Hr; [lia|].
  destruct Hlast as (t & Ht & ->).
  exists t, w'. split; [|split].
  - rewrite <- Ht. f_equal. lia.
  - unfold retryWithBackoff. rewrite Hr. exact Hrun.
  - exact Hcalls.
Qed.

Lemma retry_exhaustion_witness :
  exists t w',
    Samples.timingOut (0 + Z.to_nat 3 - 1)%nat = Threw t
    /\ retryWithBackoff (scripted Samples.timingOut) 3 "Database connection"
         2000%Q (Samples.world [] [])
       = (Threw (newError ("Database connection" ++ " failed after "
                           ++ showZ 3 ++ " attempts: "
                           ++ message (toError t))), w')
    /\ calls w' = (0 + Z.to_nat 3)%nat.
Proof.
  apply (retry_exhaustion unit Samples.timingOut 3 "Database connection"
           2000%Q (Samples.world [] [])).
  - lia.
  - intros k. eexists. split; reflexivity.
Defined.

(** C10.  With [maxAttempts <= 0] the operation is not invoked (the world,
    invocation counter included, is unchanged) and the call rejects with
    the aggregate error for [maxAttempts] attempts, whose underlying
    message renders as [undefined]. *)
Theorem retry_without_attempts T (fn : M Thrown T) n name base w :
  (n <= 0)%Z ->
  retryWithBackoff fn n name base w
  = (Threw (newError (name ++ " failed after " ++ showZ n
                      ++ " attempts: undefined")), w).
Proof.
  intros Hn. unfold retryWithBackoff.
  replace (Z.to_nat n) with 0%nat by lia. reflexivity.
Qed.

Lemma retry_without_attempts_witness :
  retryWithBackoff (scripted Samples.timingOut) (-2) "Redis connection"
    1000%Q (Samples.world [] [])
  = (Threw (newError "Redis connection failed after -2 attempts: undefined"),
     Samples.world [] []).
Proof.
  apply (retry_without_attempts unit (scripted Samples.timingOut) (-2)
           "Redis connection" 1000%Q (Samples.world [] [])).
  lia.
Defined.

(** C2, as the code has it.  Let the attempts before index [k] have failed
    with messages without 'ENOTFOUND', and let attempt [k] fail with error
    [t].  If its message contains 'ENOTFOUND', the error is rethrown at once,
    on whichever attempt it occurs; if it contains 'ECONNREFUSED' and not
    'ENOTFOUND', it is rethrown at once when [k] is the final attempt
    [maxAttempts - 1]; on an earlier attempt the operation is invoked again
    whenever the message does not contain 'ENOTFOUND'. *)
Theorem rethrow_rule T (script : nat -> Result Thrown T) n name base w k t :
  (Z.of_nat k < n)%Z ->
  (forall j, (j < k)%nat ->
     exists tj, script (calls w + j)%nat = Threw tj
                /\ includes "ENOTFOUND" (message (toError tj)) = false) ->
  script (calls w + k)%nat = Threw t ->
  let msg := message (toError t) in
  let out := retryWithBackoff (scripted script) n name base w in
  (includes "ENOTFOUND" msg = true ->
     fst out = Threw (toError t) /\ calls (snd out) = (calls w + k + 1)%nat)
  /\ (includes "ENOTFOUND" msg = false ->
      includes "ECONNREFUSED" msg = true -> Z.of_nat k = (n - 1)%Z ->
      fst out = Threw (toError t) /\ calls (snd out) = (calls w + k + 1)%nat)
  /\ (includes "ENOTFOUND" msg = false -> (Z.of_nat k < n - 1)%Z ->
      (calls w + k + 2 <= calls (snd out))%nat).
Proof.
  intros Hk Hpre Ht msg out.
  assert (Z.to_nat n = (k + S (Z.to_nat n - k - 1))%nat) as Hsplit by lia.
  set (r := (Z.to_nat n - k - 1)%nat) in Hsplit.
  destruct (loop_skip T script n name base k (S r) 0%Z None w)
    as (w1 & last & Hc1 & Hrun).
  { intros j Hj. destruct (Hpre j Hj) as (tj & Htj & Hnf).
    exists tj. split; [exact Htj|]. unfold rethrows. rewrite Hnf.
    replace (0 + Z.of_nat j =? n - 1)%Z with false
      by (symmetry; apply Z.eqb_neq; lia).
    rewrite andb_false_r. reflexivity. }
  destruct (loop_step T script n name base r (0 + Z.of_nat k)%Z last w1)
    as (w2 & Hc2 & Hstep).
  rewrite Hc1, Ht in Hstep. cbv zeta in Hstep.
  assert (out = attemptsFrom (scripted script) n name base (S r)
                  (0 + Z.of_nat k)%Z last w1) as Hout.
  { unfold out, retryWithBackoff. rewrite Hsplit. exact Hrun. }
  rewrite Hstep in Hout. clear Hstep Hrun.
  unfold rethrows in Hout. fold msg in Hout.
  split; [|split].
  - intros Hnf. rewrite Hnf in Hout. cbn [orb] in Hout. rewrite Hout.
    cbn. split; [reflexivity|lia].
  - intros Hnf Hcr Hlast. rewrite Hnf, Hcr in Hout.
    replace (0 + Z.of_nat k =? n - 1)%Z with true in Hout
      by (symmetry; apply Z.eqb_eq; lia).
    cbn [orb andb] in Hout. rewrite Hout. cbn. split; [reflexivity|lia].
  - intros Hnf Hearly. rewrite Hnf in Hout.
    replace (0 + Z.of_nat k =? n - 1)%Z with false in Hout
      by (symmetry; apply Z.eqb_neq; lia).
    rewrite andb_false_r in Hout. cbn [orb] in Hout. rewrite Hout.
    destruct r as [|r'] eqn:Hr; [subst r; lia|].
    etransitivity; [|apply loop_invokes]. cbn [calls emit]. lia.
Qed.

Lemma rethrow_rule_witness :
  fst (retryWithBackoff (scripted Samples.refused) 3 "Database connection"
         2000%Q (Samples.world [] []))
  = Threw (newError "connect ECONNREFUSED 127.0.0.1:5432")
  /\ calls (snd (retryWithBackoff (scripted Samples.refused) 3
                   "Database connection" 2000%Q (Samples.world [] [])))
     = 3%nat.
Proof.
  apply (rethrow_rule unit Samples.refused 3 "Database connection" 2000%Q
           (Samples.world [] []) 2
           (ThrownError (newError "connect ECONNREFUSED 127.0.0.1:5432"))).
  - lia.
  - intros j Hj. eexists. split; reflexivity.
  - reflexivity.
  - reflexivity.
  - reflexivity.
  - reflexivity.
Defined.

(** C2, as stated, fails: of five attempts, the first one fails with an
    'ENOTFOUND' message; the error is rethrown at once although attempt 0 is
    not the final attempt, and the operation has been invoked once only. *)
Lemma unresolved_host_not_retried :
  includes "ENOTFOUND" "getaddrinfo ENOTFOUND db.internal" = true
  /\ (0 <> 5 - 1)%Z
  /\ fst (retryWithBackoff (scripted Samples.unresolved) 5
            "Database connection" 2000%Q (Samples.world [] []))
     = Threw (newError "getaddrinfo ENOTFOUND db.internal")
  /\ calls (snd (retryWithBackoff (scripted Samples.unresolved) 5
                   "Database connection" 2000%Q (Samples.world [] [])))
     = 1%nat.
Proof. repeat split. discriminate. Qed.

End RetryProps.

(** ** The small program logic *)

Module WpProps.

Import Js Model Async Store Wp.
Local Open Scope string_scope.

Section Rules.

Context {E A : Type}.
Variable K : Result E A -> World -> Prop.
Variable w : World.

Lemma wp_ret (a : A) : K (Returned a) w -> wp (ret a) K w.
Proof. exact (fun H => H). Qed.

Lemma wp_throw (e : E) : K (Threw e) w -> wp (throw e) K w.
Proof. exact (fun H => H). Qed.

Lemma wp_bind {B} (m : M E B) (k : B -> M E A) :
  wp m (fun r w' => match r with
                    | Returned b => wp (k b) K w'
                    | Threw e => K (Threw e) w'
                    end) w ->
  wp (bind m k) K w.
Proof. unfold wp, bind. destruct (m w) as [[b|e] w']; exact (fun H => H). Qed.

Lemma wp_tryCatch {E1} (body : M E1 A) (handler : E1 -> M E A) :
  wp body (fun r w' => match r with
                       | Returned a => K (Returned a) w'
                       | Threw e => wp (handler e) K w'
                       end) w ->
  wp (tryCatch body handler) K w.
Proof.
  unfold wp, tryCatch. destruct (body w) as [[a|e] w']; exact (fun H => H).
Qed.

Lemma wp_mono (m : M E A) (K' : Result E A -> World -> Prop) :
  wp m K' w -> (forall r w', K' r w' -> K r w') -> wp m K w.
Proof. unfold wp. intros H HQ. apply HQ, H. Qed.

Lemma wp_keeps (I : World -> Prop) (m : M E A) :
  keeps I m -> I w -> (forall r w', I w' -> K r w') -> wp m K w.
Proof. intros Hk HI HQ. eapply wp_mono; [apply Hk, HI|]. exact HQ. Qed.

End Rules.

Lemma wp_seeing {E A} (K : Result (E * ScheduledPost) A -> World -> Prop) w
    inst (m : M E A) :
  wp m (fun r w' => K match r with
                      | Returned a => Returned a
                      | Threw e => Threw (e, inst)
                      end w') w ->
  wp (seeing inst m) K w.
Proof. unfold wp, seeing. destruct (m w) as [[a|e] w']; exact (fun H => H). Qed.

Section Primitives.

Context {E : Type}.

Lemma wp_log (K : Result E unit -> World -> Prop) w lvl msg :
  K (Returned tt) (emit (Logged lvl msg) w) -> wp (log lvl msg) K w.
Proof. exact (fun H => H). Qed.

Lemma wp_consoleError (K : Result E unit -> World -> Prop) w msg :
  K (Returned tt) (emit (Console msg) w) -> wp (consoleError msg) K w.
Proof. exact (fun H => H). Qed.

Lemma wp_sleep (K : Result E unit -> World -> Prop) w ms :
  K (Returned tt)
    (emit (Slept ms) (setClock (clock w + Z.max 0 (Qfloor ms)) w)) ->
  wp (sleep ms) K w.
Proof. exact (fun H => H). Qed.

Lemma wp_newDate (K : Result E Z -> World -> Prop) w :
  K (Returned (clock w)) w -> wp newDate K w.
Proof. exact (fun H => H). Qed.

Lemma wp_random (K : Result E Q -> World -> Prop) w :
  K (Returned (hd 0%Q (draws w))) (setDraws (tl (draws w)) w) ->
  wp random K w.
Proof. exact (fun H => H). Qed.

Lemma wp_external (K : Result E Reply -> World -> Prop) w :
  K (Returned (reply 0 w)) (setReplies (tl (replies w)) w) ->
  wp external K w.
Proof. exact (fun H => H). Qed.

Lemma wp_backoff (K : Result E Q -> World -> Prop) w attempt baseDelay :
  K (Returned (Backoff.calculateExponentialBackoff (hd 0%Q (draws w))
                 attempt baseDelay Backoff.defaultMaxDelay))
    (setDraws (tl (draws w)) w) ->
  wp (backoff attempt baseDelay) K w.
Proof. exact (fun H => H). Qed.

End Primitives.

(** A database call: it rejects with the driver's error, or answers from
    the world that follows the reply. *)
Lemma wp_query {A} (K : Result JsError A -> World -> Prop) w
    (answer : World -> A * World) :
  match reply 0 w with
  | Rejects msg => K (Threw (newError msg)) (setReplies (tl (replies w)) w)
  | Succeeds _ =>
      K (Returned (fst (answer (setReplies (tl (replies w)) w))))
        (snd (answer (setReplies (tl (replies w)) w)))
  end ->
  wp (query answer) K w.
Proof.
  unfold query. intros H. apply wp_bind, wp_external.
  destruct (reply 0 w) as [payload|msg].
  - unfold wp. destruct (answer (setReplies (tl (replies w)) w)). exact H.
  - exact H.
Qed.

Lemma wp_save (K : Result JsError unit -> World -> Prop) w p :
  match reply 0 w with
  | Rejects msg => K (Threw (newError msg)) (setReplies (tl (replies w)) w)
  | Succeeds _ =>
      K (Returned tt)
        (setTable (upsert p (table w)) (setReplies (tl (replies w)) w))
  end ->
  wp (save p) K w.
Proof. intros H. apply wp_query. exact H. Qed.

Lemma wp_findByPk (K : Result JsError (option ScheduledPost)
                       -> World -> Prop) w postId :
  match reply 0 w with
  | Rejects msg => K (Threw (newError msg)) (setReplies (tl (replies w)) w)
  | Succeeds _ =>
      K (Returned (find (hasId postId) (table w)))
        (setReplies (tl (replies w)) w)
  end ->
  wp (findByPk postId) K w.
Proof. intros H. apply wp_query. exact H. Qed.

Lemma wp_findAll (K : Result JsError (list ScheduledPost)
                      -> World -> Prop) w where_ limit :
  match reply 0 w with
  | Rejects msg => K (Threw (newError msg)) (setReplies (tl (replies w)) w)
  | Succeeds _ =>
      K (Returned (select where_ limit (table w)))
        (setReplies (tl (replies w)) w)
  end ->
  wp (findAll where_ limit) K w.
Proof. intros H. apply wp_query. exact H. Qed.

(** The replies to come, across changes of the world. *)
Lemma reply_emit n e w : reply n (emit e w) = reply n w.
Proof. reflexivity. Qed.

Lemma reply_setTable n rows w : reply n (setTable rows w) = reply n w.
Proof. reflexivity. Qed.

Lemma reply_setClock n c w : reply n (setClock c w) = reply n w.
Proof. reflexivity. Qed.

Lemma reply_setDraws n d w : reply n (setDraws d w) = reply n w.
Proof. reflexivity. Qed.

Lemma reply_next n w :
  reply n (setReplies (tl (replies w)) w) = reply (S n) w.
Proof.
  unfold reply. cbn [replies setReplies].
  destruct (replies w) as [|r rs]; [destruct n|]; reflexivity.
Qed.

Create Rewrite HintDb world.

#[global] Hint Rewrite reply_emit reply_setTable reply_setClock reply_setDraws
  reply_next : world.

Ltac wp_step :=
  cbv zeta;
  lazymatch goal with
  | |- wp (ret _) _ _ => apply wp_ret
  | |- wp (throw _) _ _ => apply wp_throw
  | |- wp (bind _ _) _ _ => apply wp_bind
  | |- wp (tryCatch _ _) _ _ => apply wp_tryCatch
  | |- wp (seeing _ _) _ _ => apply wp_seeing
  | |- wp (log _ _) _ _ => apply wp_log
  | |- wp (consoleError _) _ _ => apply wp_consoleError
  | |- wp (sleep _) _ _ => apply wp_sleep
  | |- wp newDate _ _ => apply wp_newDate
  | |- wp (backoff _ _) _ _ => apply wp_backoff
  | |- wp external _ _ => apply wp_external
  | |- wp (if ?b then _ else _) _ _ => destruct b eqn:?
  | |- wp (match ?x with _ => _ end) _ _ => destruct x eqn:?
  end;
  cbv beta iota.

Ltac wp_go := repeat wp_step.

End WpProps.

(** ** JobProcessor and scheduler loop *)

Module SchedulerProps.

Import Js Model Async Store Autopilot Job Wp WpProps.
Local Open Scope string_scope.
Local Open Scope list_scope.

Create HintDb inv.

Section Preservation.

Variable I : World -> Prop.
Variable writable : string -> Prop.

Hypothesis I_emit :
  forall e w, startedProcessing e = None -> I w -> I (emit e w).
Hypothesis I_clock : forall c w, I w -> I (setClock c w).
Hypothesis I_draws : forall d w, I w -> I (setDraws d w).
Hypothesis I_replies : forall r w, I w -> I (setReplies r w).
Hypothesis I_upsert :
  forall p w, writable (id p) -> I w -> I (setTable (upsert p (table w)) w).

Hint Resolve I_emit I_clock I_draws I_replies I_upsert : inv.
Hint Extern 1 (startedProcessing _ = None) => reflexivity : inv.

Ltac wp_call lem :=
  eapply wp_keeps;
  [ apply lem; auto with inv | auto with inv
  | intros [?|?] ? ?; cbv beta iota ].

Ltac leaf :=
  cbv beta iota;
  try (split; [|intros ? ? Heq; inversion Heq; subst; reflexivity]);
  auto 10 with inv.

Lemma save_keeps p : writable (id p) -> keeps I (save p).
Proof.
  intros Hw w HI. apply wp_query.
  destruct (reply 0 w); cbv beta iota; [|auto with inv].
  apply (I_upsert p (setReplies (tl (replies w)) w)); auto with inv.
Qed.

Lemma findByPk_spec i w (K : Result JsError (option ScheduledPost)
                              -> World -> Prop) :
  I w ->
  (forall r w', I w' -> (forall q, r = Returned (Some q) -> id q = i) ->
     K r w') ->
  wp (findByPk i) K w.
Proof.
  intros HI HK. apply wp_query.
  destruct (reply 0 w) as [payload|msg]; cbn.
  - apply HK; [auto with inv|]. intros q [= Hq].
    apply find_some in Hq. apply String.eqb_eq, Hq.
  - apply HK; [auto with inv|]. discriminate.
Qed.

Lemma publishPost_keeps a b c : keeps I (publishPost a b c).
Proof.
  intros w HI. unfold publishPost. wp_go; auto 10 with inv.
Qed.

Lemma accountOf_keeps p : keeps I (accountOf p).
Proof. intros w HI. unfold accountOf. wp_go; exact HI. Qed.

Lemma newScheduledPostError_returns {E} msg postId rc orig w
    (K : Result E JsError -> World -> Prop) :
  (forall w', w' = w \/ (exists e, startedProcessing e = None
                                   /\ w' = emit e w) ->
     K (Returned {| errClass := ScheduledPostError; message := msg;
                    errPostId := Some postId; errRetryCount := Some rc |})
       w') ->
  wp (newScheduledPostError msg postId rc orig) K w.
Proof.
  intros HK. unfold newScheduledPostError. wp_go; apply HK.
  - right. eexists. split; [|reflexivity]. reflexivity.
  - left. reflexivity.
Qed.

Lemma publishAttempt_spec postId post w :
  writable (id post) -> I w ->
  wp (publishAttempt postId post)
     (fun r w' => I w' /\ forall e inst, r = Threw (e, inst) ->
                                         id inst = id post) w.
Proof.
  intros Hw HI. unfold publishAttempt. wp_step. wp_step.
  wp_call save_keeps; [|leaf].
  wp_step. wp_step. wp_step. wp_step.
  wp_call accountOf_keeps; [|leaf].
  wp_step. wp_step.
  { wp_step. apply newScheduledPostError_returns. intros w2 Hw2.
    wp_step. split.
    - destruct Hw2 as [->|(ev & He & ->)]; auto 10 with inv.
    - intros ? ? [= <- <-]. reflexivity. }
  wp_step. wp_step. wp_step. wp_step. wp_step.
  wp_call publishPost_keeps; [|leaf].
  wp_step. wp_step. wp_step. wp_step.
  wp_call save_keeps; [|leaf].
  wp_go. leaf.
Qed.

Lemma publishFailed_keeps postId e inst :
  writable (id inst) -> keeps I (publishFailed postId (e, inst)).
Proof.
  intros Hw w HI. unfold publishFailed. wp_step. wp_step. wp_step.
  wp_call save_keeps; [|assumption].
  wp_step.
  - wp_step. assumption.
  - wp_step. apply newScheduledPostError_returns. intros w2 Hw2.
    wp_step. destruct Hw2 as [->|(ev & He & ->)]; auto with inv.
Qed.

Lemma executeScheduledPost_keeps postId :
  writable postId -> keeps I (executeScheduledPost postId).
Proof.
  intros Hw w HI. unfold executeScheduledPost. wp_step. wp_step. wp_step.
  apply findByPk_spec; [auto with inv|]. intros r w1 HI1 Hid.
  destruct r as [[q|]|e]; cbv beta iota; [|wp_go; auto with inv..].
  specialize (Hid q eq_refl). subst postId.
  wp_step; [wp_go; auto with inv|].
  wp_step. eapply wp_mono; [apply publishAttempt_spec; assumption|].
  intros [a|[e inst]] w2 [HI2 Hinst]; cbv beta iota; [exact HI2|].
  apply publishFailed_keeps; [|exact HI2].
  rewrite (Hinst e inst eq_refl). exact Hw.
Qed.

Lemma markAndExecute_spec post w :
  writable (id post) -> I w ->
  wp (markAndExecute post)
     (fun r w' => I w' /\ forall e inst, r = Threw (e, inst) ->
                                         id inst = id post) w.
Proof.
  intros Hw HI. unfold markAndExecute. wp_step. wp_step.
  wp_call save_keeps; [|leaf].
  wp_step. wp_step.
  wp_call executeScheduledPost_keeps; [|leaf].
  wp_go. leaf.
Qed.

Lemma backoffBeforeRetry_spec post rc w
    (K : Result (JsError * ScheduledPost) unit -> World -> Prop) :
  I w -> (forall w', I w' -> K (Returned tt) w') ->
  wp (backoffBeforeRetry post rc) K w.
Proof.
  intros HI HK. unfold backoffBeforeRetry. wp_go; apply HK; auto 10 with inv.
Qed.

Lemma executionAttempt_spec post rc w :
  writable (id post) -> I w ->
  wp (executionAttempt post rc)
     (fun r w' => I w' /\ forall e inst, r = Threw (e, inst) ->
                                         id inst = id post) w.
Proof.
  intros Hw HI. unfold executionAttempt. wp_step.
  apply backoffBeforeRetry_spec; [exact HI|]. intros w1 HI1.
  apply markAndExecute_spec; assumption.
Qed.

Lemma executionFailed_keeps rc e inst :
  writable (id inst) -> keeps I (executionFailed rc (e, inst)).
Proof.
  intros Hw w HI. unfold executionFailed. wp_step. wp_step. wp_step.
  wp_step.
  wp_step.
  - wp_go;
      (wp_call save_keeps; [|assumption]);
      wp_step; apply newScheduledPostError_returns; intros w2 Hw2;
      wp_step; destruct Hw2 as [->|(ev & He & ->)]; auto with inv.
  - wp_go;
      (wp_call save_keeps; [|assumption]);
      wp_step; apply newScheduledPostError_returns; intros w2 Hw2;
      wp_step; destruct Hw2 as [->|(ev & He & ->)]; auto with inv.
Qed.

(** What [processScheduledPost] does after its first log line. *)
Lemma processing_keeps post :
  writable (id post) ->
  keeps I (tryCatch (executionAttempt post (retryCountOf post))
             (executionFailed (retryCountOf post))).
Proof.
  intros Hw w HI. wp_step.
  eapply wp_mono; [apply executionAttempt_spec; assumption|].
  intros [a|[e inst]] w2 [HI2 Hinst]; cbv beta iota; [exact HI2|].
  apply executionFailed_keeps; [|exact HI2].
  rewrite (Hinst e inst eq_refl). exact Hw.
Qed.

(** The [try] block after its first statement, with the [catch] block. *)
Lemma marked_keeps post rc :
  writable (id post) ->
  keeps I (tryCatch (markAndExecute post) (executionFailed rc)).
Proof.
  intros Hw w HI. wp_step.
  eapply wp_mono; [apply markAndExecute_spec; assumption|].
  intros [a|[e inst]] w2 [HI2 Hinst]; cbv beta iota; [exact HI2|].
  apply executionFailed_keeps; [|exact HI2].
  rewrite (Hinst e inst eq_refl). exact Hw.
Qed.

Hypothesis I_line :
  forall p w,
    I w ->
    I (emit (Logged Info [Txt "Processing scheduled post "; Txt (id p)]) w).

Lemma processScheduledPost_keeps post :
  writable (id post) -> keeps I (processScheduledPost post).
Proof.
  intros Hw w HI. unfold processScheduledPost. wp_step. wp_step.
  apply processing_keeps; [exact Hw|]. apply I_line, HI.
Qed.

Lemma processBatch_keeps posts :
  (forall p, In p posts -> writable (id p)) -> keeps I (processBatch posts).
Proof.
  unfold processBatch.
  induction posts as [|p rest IH]; intros Hall w HI; cbn [forEach].
  - exact HI.
  - wp_step. wp_step.
    eapply wp_keeps;
      [apply processScheduledPost_keeps, Hall; left; reflexivity|exact HI|].
    intros [[]|e] w1 HI1; cbv beta iota.
    + apply IH; [|exact HI1]. intros q Hq. apply Hall. right. exact Hq.
    + wp_step. apply IH; [|auto with inv].
      intros q Hq. apply Hall. right. exact Hq.
Qed.

End Preservation.

(** *** Batch isolation *)

Lemma attempted_app a b : attempted (a ++ b) = attempted a ++ attempted b.
Proof.
  induction a as [|e a IH]; cbn [attempted app]; [reflexivity|].
  destruct (startedProcessing e); rewrite IH; reflexivity.
Qed.

Lemma processScheduledPost_attempted p w :
  attempted (trace (snd (processScheduledPost p w)))
  = attempted (trace w) ++ [id p].
Proof.
  change (wp (processScheduledPost p)
            (fun _ w' => attempted (trace w') = attempted (trace w) ++ [id p])
            w).
  unfold processScheduledPost. wp_step. wp_step.
  apply (processing_keeps
           (fun w' => attempted (trace w') = attempted (trace w) ++ [id p])
           (fun _ => True)); try (intros; assumption); [|exact Logic.I|].
  - intros e w0 He H0. cbn [trace emit]. rewrite attempted_app, H0.
    cbn [attempted]. rewrite He. apply app_nil_r.
  - cbn [trace emit]. rewrite attempted_app. reflexivity.
Qed.

Lemma processBatch_attempted posts : forall w,
  exists w',
    processBatch posts w = (Returned tt, w')
    /\ attempted (trace w') = attempted (trace w) ++ map id posts.
Proof.
  unfold processBatch.
  induction posts as [|p rest IH]; intros w; cbn [forEach map].
  - exists w. split; [reflexivity|]. symmetry. apply app_nil_r.
  - unfold bind at 1, tryCatch at 1.
    pose proof (processScheduledPost_attempted p w) as Hp.
    destruct (processScheduledPost p w) as [[[]|e] w1]; cbn [snd] in Hp.
    + destruct (IH w1) as (w' & Hrun & Hatt). exists w'.
      split; [exact Hrun|]. rewrite Hatt, Hp, <- app_assoc. reflexivity.
    + unfold log.
      destruct (IH (emit (Logged Err [Txt "Failed to process post ";
                                      Txt (id p)]) w1))
        as (w' & Hrun & Hatt).
      exists w'. split; [exact Hrun|]. rewrite Hatt. cbn [trace emit].
      rewrite attempted_app, Hp. cbn [attempted startedProcessing].
      rewrite app_nil_r, <- app_assoc. reflexivity.
Qed.

Lemma scheduledPostsTick_returns w :
  exists w', scheduledPostsTick w = (Returned tt, w').
Proof.
  unfold scheduledPostsTick. unfold bind at 1, log at 1, tryCatch.
  match goal with
  | |- context [match ?body ?w0 with _ => _ end] =>
      destruct (body w0) as [[[]|e] w1]
  end; eexists; reflexivity.
Qed.

(** *** The batch query *)

Lemma select_In where_ limit rows p :
  In p (select where_ limit rows) -> In p rows /\ where_ p = true.
Proof.
  unfold select. intros Hin. apply filter_In.
  rewrite <- (firstn_skipn limit (filter where_ rows)).
  apply in_or_app. left. exact Hin.
Qed.

Lemma terminal_not_due now t : terminal t -> dueForProcessing now t = false.
Proof.
  unfold terminal, retryCountOf, dueForProcessing, metadataIsNull,
    storedRetryCountBelow.
  intros [Hs Hr]. rewrite Hs. cbn [Status_eqb orb andb].
  destruct (metadata t) as [m|]; [|discriminate].
  destruct (retryCount m) as [n|]; [|discriminate].
  subst n. reflexivity.
Qed.

Lemma upsert_keeps_others t p rows :
  id p <> id t -> In t rows -> In t (upsert p rows).
Proof.
  intros Hne Hin. unfold upsert. destruct (existsb _ rows).
  - apply in_map_iff. exists t. split; [|exact Hin]. unfold hasId.
    destruct (String.eqb_spec (id t) (id p)); [congruence|reflexivity].
  - apply in_or_app. left. exact Hin.
Qed.

Lemma upsert_ids p rows :
  In (id p) (map id rows) -> map id (upsert p rows) = map id rows.
Proof.
  intros Hin. unfold upsert.
  replace (existsb (hasId (id p)) rows) with true.
  - rewrite map_map. apply map_ext. intros r. unfold hasId.
    destruct (String.eqb_spec (id r) (id p)); congruence.
  - symmetry. apply existsb_exists. apply in_map_iff in Hin.
    destruct Hin as (q & Hq & Hin). exists q. split; [exact Hin|].
    unfold hasId. rewrite Hq. apply String.eqb_refl.
Qed.

Lemma ids_injective rows : forall p q,
  NoDup (map id rows) -> In p rows -> In q rows -> id p = id q -> p = q.
Proof.
  induction rows as [|r rows IH]; intros p q Hnd Hp Hq Heq; [contradiction|].
  cbn [map] in Hnd. inversion Hnd as [|x l Hnotin Hnd']; subst.
  destruct Hp as [->|Hp], Hq as [->|Hq].
  - reflexivity.
  - exfalso. apply Hnotin. rewrite Heq. apply in_map, Hq.
  - exfalso. apply Hnotin. rewrite <- Heq. apply in_map, Hp.
  - apply IH; assumption.
Qed.

Section KeptAside.

Variable t : ScheduledPost.
Variable ids : list string.
Hypothesis ids_unique : NoDup ids.
Hypothesis t_terminal : terminal t.

Lemma keptAside_upsert p w :
  In (id p) ids /\ id p <> id t ->
  keptAside t ids w -> keptAside t ids (setTable (upsert p (table w)) w).
Proof.
  intros [Hin Hne] [Ht Hids]. split; cbn [table setTable].
  - apply upsert_keeps_others; assumption.
  - rewrite upsert_ids; [exact Hids|]. rewrite Hids. exact Hin.
Qed.

Lemma selected_writable now w p :
  keptAside t ids w ->
  In p (select (dueForProcessing now) batchLimit (table w)) ->
  In (id p) ids /\ id p <> id t.
Proof.
  intros [Ht Hids] Hsel. apply select_In in Hsel. destruct Hsel as [Hp Hdue].
  split.
  - rewrite <- Hids. apply in_map, Hp.
  - intros Heq.
    assert (p = t) as ->
        by (apply (ids_injective (table w)); [rewrite Hids| | |];
            assumption).
    rewrite (terminal_not_due now t t_terminal) in Hdue. discriminate.
Qed.

Lemma scheduledPostsTick_keeps_aside :
  keeps (keptAside t ids) scheduledPostsTick.
Proof.
  intros w HI. unfold scheduledPostsTick. wp_step. wp_step. wp_step.
  wp_step. wp_step. wp_step. unfold findAll. apply wp_query.
  destruct (reply 0 _) as [payload|msg]; cbn [fst snd].
  - wp_step. wp_step.
    eapply (wp_keeps _ _ (keptAside t ids)).
    + apply (processBatch_keeps (keptAside t ids)
               (fun i => In i ids /\ i <> id t)); try (intros; assumption).
      * intros p w0. apply keptAside_upsert.
      * intros p Hp. apply (selected_writable _ _ _ HI Hp).
    + exact HI.
    + intros [[]|e] w1 H1; cbv beta iota; [exact H1|].
      wp_step. exact H1.
  - wp_step. exact HI.
Qed.

Lemma runSchedule_keeps_aside n : forall w,
  keptAside t ids w -> keptAside t ids (runSchedule n w).
Proof.
  induction n as [|n IH]; intros w HI; cbn [runSchedule]; [exact HI|].
  apply IH. apply scheduledPostsTick_keeps_aside. exact HI.
Qed.

End KeptAside.

(** C7.  A post is in the batch only if its status is 'pending', or
    'failed' with a retry count below [MAX_RETRIES], and it is due.  And a
    post with status 'failed' and retry count [MAX_RETRIES] stays in the
    table as it is through any number of firings of the scheduler, and no
    batch query on the resulting table returns a row with its id (ids being
    primary keys). *)
Theorem terminal_never_selected :
  (forall now rows p,
      In p (select (dueForProcessing now) batchLimit rows) ->
      (status p = pending
       \/ (status p = failed /\ (retryCountOf p < MAX_RETRIES)%Z))
      /\ (scheduledFor p <= now)%Z)
  /\ (forall t w n now,
        NoDup (map id (table w)) -> In t (table w) -> terminal t ->
        In t (table (runSchedule n w))
        /\ forall q,
             In q (select (dueForProcessing now) batchLimit
                     (table (runSchedule n w))) ->
             id q <> id t).
Proof.
  split.
  - intros now rows p Hsel. apply select_In in Hsel.
    destruct Hsel as [_ Hdue]. unfold dueForProcessing in Hdue.
    apply andb_prop in Hdue. destruct Hdue as [Hst Hwhen].
    split; [|apply Z.leb_le, Hwhen].
    apply orb_prop in Hst. destruct Hst as [Hst|Hst].
    + left. destruct (status p); try discriminate. reflexivity.
    + right. apply andb_prop in Hst. destruct Hst as [Hst Hrc]. split.
      * destruct (status p); try discriminate. reflexivity.
      * unfold retryCountOf, metadataIsNull, storedRetryCountBelow in *.
        destruct (metadata p) as [m|]; [|reflexivity].
        destruct (retryCount m) as [k|]; [|reflexivity].
        apply Z.ltb_lt. exact Hrc.
  - intros t w n now Hnd Hin Hterm.
    assert (keptAside t (map id (table w)) (runSchedule n w)) as Hkept
        by (apply runSchedule_keeps_aside; [assumption..|split; auto]).
    split; [apply Hkept|]. intros q Hq.
    apply (selected_writable t (map id (table w)) Hnd Hterm now _ q
             Hkept Hq).
Qed.

(** *** The processor *)

Lemma find_upsert p rows : find (hasId (id p)) (upsert p rows) = Some p.
Proof.
  assert (hasId (id p) p = true) as Hp by apply String.eqb_refl.
  unfold upsert. destruct (existsb (hasId (id p)) rows) eqn:Hex.
  - induction rows as [|r rows IH]; [discriminate|].
    cbn [map find existsb] in *. destruct (hasId (id p) r) eqn:Hr.
    + rewrite Hp. reflexivity.
    + rewrite Hr. apply IH. exact Hex.
  - induction rows as [|r rows IH]; cbn [app find existsb] in *.
    + rewrite Hp. reflexivity.
    + apply orb_false_iff in Hex. destruct Hex as [Hr Hex].
      rewrite Hr. apply IH. exact Hex.
Qed.

(** The first write and the executor's read succeed: the executor finds the
    row in status 'processing' and gives up without touching it. *)
Lemma markAndExecute_leaves_processing p w :
  succeeds (reply 0 w) = true -> succeeds (reply 1 w) = true ->
  wp (markAndExecute p)
     (fun r w' => r = Returned tt
                  /\ stored (id p) w' = Some (setStatus processing p)) w.
Proof.
  intros H0 H1. unfold markAndExecute. wp_step. wp_step. apply wp_save.
  destruct (reply 0 w) as [payload|msg]; [clear H0|discriminate].
  wp_step. wp_step. unfold executeScheduledPost.
  wp_step. wp_step. wp_step. apply wp_findByPk.
  autorewrite with world.
  destruct (reply 1 w) as [payload'|msg]; [clear H1|discriminate].
  cbn [table setTable setReplies emit].
  change (id (setStatus processing p)) with (id p).
  change (id p) with (id (setStatus processing p)) at 1.
  rewrite find_upsert. cbn [status setStatus Status_eqb negb].
  wp_go. split; [reflexivity|].
  unfold stored. cbn [table setTable setReplies emit].
  change (id p) with (id (setStatus processing p)) at 1.
  apply find_upsert.
Qed.

(** C1 fails on the code.  When the write of 'processing' and the
    executor's read of the row both succeed, [processScheduledPost] returns
    normally and the stored status of the post is still 'processing': the
    executor only acts on a row whose stored status is 'pending', which the
    processor has just overwritten. *)
Theorem processing_left_behind p w :
  succeeds (reply 0 w) = true -> succeeds (reply 1 w) = true ->
  fst (processScheduledPost p w) = Returned tt
  /\ option_map status (stored (id p) (snd (processScheduledPost p w)))
     = Some processing.
Proof.
  intros H0 H1.
  change (wp (processScheduledPost p)
            (fun r w' => r = Returned tt
                         /\ option_map status (stored (id p) w')
                            = Some processing) w).
  unfold processScheduledPost. wp_step. wp_step. wp_step.
  unfold executionAttempt. wp_step.
  apply (backoffBeforeRetry_spec
           (fun w' => succeeds (reply 0 w') = true
                      /\ succeeds (reply 1 w') = true));
    try (intros; assumption); [split; assumption|].
  intros w1 [G0 G1].
  eapply wp_mono; [apply markAndExecute_leaves_processing; assumption|].
  intros r w2 [-> Hst]. cbv beta iota. rewrite Hst. split; reflexivity.
Qed.

(** A retry: the processor sleeps, then marks and executes. *)
Lemma processScheduledPost_retry p w :
  (0 < retryCountOf p)%Z ->
  processScheduledPost p w
  = tryCatch (markAndExecute p) (executionFailed (retryCountOf p))
      (emit (Slept (retryDelay p w))
         (setClock (clock w + Z.max 0 (Qfloor (retryDelay p w)))
            (emit (Logged Info [Txt "Applying backoff delay of ";
                                Millis (retryDelay p w);
                                Txt "ms for post "; Txt (id p)])
               (setDraws (tl (draws w)) (entering p w))))).
Proof.
  intros Hrc. apply Z.ltb_lt in Hrc.
  unfold processScheduledPost, executionAttempt, backoffBeforeRetry.
  rewrite Hrc. reflexivity.
Qed.

(** Whatever happens after the sleep only adds to the trace. *)
Lemma marked_trace_grows p rc w :
  exists rest,
    trace (snd (tryCatch (markAndExecute p) (executionFailed rc) w))
    = trace w ++ rest.
Proof.
  apply (marked_keeps (fun w' => exists rest, trace w' = trace w ++ rest)
           (fun _ => True));
    try exact Logic.I;
    try (exists []; symmetry; apply app_nil_r);
    intros;
    lazymatch goal with
    | H : exists rest, _ |- _ =>
        destruct H as [rest Hr]; eexists;
        cbn [trace emit setTable setClock setDraws setReplies];
        rewrite Hr; first [reflexivity | symmetry; apply app_assoc]
    end.
Qed.

Lemma executionFailed_persists rc err inst w1 :
  (rc + 1 < MAX_RETRIES)%Z -> succeeds (reply 0 w1) = true ->
  wp (executionFailed rc (err, inst))
     (fun r w' =>
        r = Threw {| errClass := ScheduledPostError;
                     message := "Failed to publish scheduled post: "
                                ++ message err;
                     errPostId := Some (id inst);
                     errRetryCount := Some (rc + 1)%Z |}
        /\ stored (id inst) w'
           = Some (setStatus pending
                     (setMetadata
                        (withRetry (rc + 1) (message err) (clock w1)
                           (spread (metadata inst))) inst))) w1.
Proof.
  intros Hrc Hok. apply Z.ltb_lt in Hrc.
  unfold executionFailed. cbv zeta. rewrite Hrc.
  wp_step. wp_step. wp_step. wp_step. wp_step. wp_step. wp_step. wp_step.
  wp_step. wp_step. wp_step. apply wp_save. autorewrite with world.
  destruct (reply 0 w1) as [payload|msg]; [clear Hok|discriminate].
  unfold newScheduledPostError. wp_go. split; [reflexivity|].
  unfold stored. cbn [table setTable setReplies setDraws emit clock].
  match goal with
  | |- find _ (upsert ?row _) = _ => change (id inst) with (id row) at 1
  end.
  apply find_upsert.
Qed.

(** The instance that reaches the [catch] block is the post. *)
Lemma executionAttempt_instance p rc w err inst w1 :
  executionAttempt p rc w = (Threw (err, inst), w1) -> id inst = id p.
Proof.
  intros Hfail.
  assert (wp (executionAttempt p rc)
            (fun r w' => True /\ forall e i, r = Threw (e, i) -> id i = id p)
            w) as Hspec
      by (apply (executionAttempt_spec (fun _ => True) (fun _ => True));
          auto).
  unfold wp in Hspec. rewrite Hfail in Hspec.
  apply (proj2 Hspec err inst eq_refl).
Qed.

(** C6.  When the [try] block of [processScheduledPost] fails with [err],
    [retryCount + 1 < MAX_RETRIES] and the write-back succeeds, the stored
    row has status 'pending' and a metadata with [retryCount] incremented by
    one, [lastError] the message of [err] and [lastRetryAt] the time of the
    failure.  And whenever [retryCount > 0], the first things the processor
    does after its opening log line are to compute
    [calculateExponentialBackoff(retryCount - 1)], log it and sleep for it:
    the write of 'processing' and the executor come after. *)
Theorem retry_bookkeeping p w :
  (forall err inst w1,
      executionAttempt p (retryCountOf p) (entering p w)
      = (Threw (err, inst), w1) ->
      (retryCountOf p + 1 < MAX_RETRIES)%Z ->
      succeeds (reply 0 w1) = true ->
      exists row m,
        stored (id p) (snd (processScheduledPost p w)) = Some row
        /\ status row = pending
        /\ metadata row = Some m
        /\ retryCount m = Some (retryCountOf p + 1)%Z
        /\ lastError m = Some (message err)
        /\ lastRetryAt m = Some (clock w1))
  /\ ((0 < retryCountOf p)%Z ->
      exists rest,
        trace (snd (processScheduledPost p w))
        = trace w
          ++ [Logged Info [Txt "Processing scheduled post "; Txt (id p)];
              Logged Info [Txt "Applying backoff delay of ";
                           Millis (retryDelay p w);
                           Txt "ms for post "; Txt (id p)];
              Slept (retryDelay p w)]
          ++ rest).
Proof.
  split.
  - intros err inst w1 Hfail Hrc Hok.
    pose proof (executionAttempt_instance _ _ _ _ _ _ Hfail) as Hid.
    pose proof (executionFailed_persists (retryCountOf p) err inst w1 Hrc Hok)
      as Hpers.
    unfold wp in Hpers. destruct Hpers as [_ Hst].
    assert (processScheduledPost p w
            = executionFailed (retryCountOf p) (err, inst) w1) as Hrun.
    { unfold processScheduledPost, bind, log, tryCatch.
      fold (entering p w). rewrite Hfail. reflexivity. }
    rewrite Hrun. rewrite Hid in Hst.
    eexists. eexists. split; [exact Hst|]. repeat split.
  - intros Hrc. rewrite (processScheduledPost_retry p w Hrc).
    match goal with
    | |- exists rest, trace (snd (_ ?w3)) = _ =>
        destruct (marked_trace_grows p (retryCountOf p) w3) as [rest Hrest]
    end.
    exists rest. rewrite Hrest. cbn [trace emit setClock setDraws entering].
    rewrite <- !app_assoc. reflexivity.
Qed.

Lemma retry_bookkeeping_witness :
  (exists row m,
      stored "retrying"
        (snd (processScheduledPost Samples.retrying
                (Samples.world [Samples.retrying] [Rejects "db down"])))
      = Some row
      /\ status row = pending
      /\ metadata row = Some m
      /\ retryCount m = Some 2%Z
      /\ lastError m = Some "db down"
      /\ lastRetryAt m = Some 2050%Z)
  /\ (exists rest,
        trace (snd (processScheduledPost Samples.retrying
                      (Samples.world [Samples.retrying] [Rejects "db down"])))
        = [] ++ [Logged Info [Txt "Processing scheduled post ";
                              Txt "retrying"];
                 Logged Info [Txt "Applying backoff delay of ";
                              Millis (retryDelay Samples.retrying
                                        (Samples.world [Samples.retrying]
                                           [Rejects "db down"]));
                              Txt "ms for post "; Txt "retrying"];
                 Slept (retryDelay Samples.retrying
                          (Samples.world [Samples.retrying]
                             [Rejects "db down"]))]
          ++ rest).
Proof.
  destruct (retry_bookkeeping Samples.retrying
              (Samples.world [Samples.retrying] [Rejects "db down"]))
    as [Hfail Hsleep].
  split.
  - apply (Hfail (newError "db down")
             (setStatus processing Samples.retrying)
             (snd (executionAttempt Samples.retrying 1
                     (entering Samples.retrying
                        (Samples.world [Samples.retrying]
                           [Rejects "db down"]))))).
    + reflexivity.
    + reflexivity.
    + reflexivity.
  - apply Hsleep. reflexivity.
Defined.

Lemma processing_left_behind_witness :
  fst (processScheduledPost Samples.early
         (Samples.world [Samples.late; Samples.early] []))
  = Returned tt
  /\ option_map status
       (stored "early"
          (snd (processScheduledPost Samples.early
                  (Samples.world [Samples.late; Samples.early] []))))
     = Some processing.
Proof.
  apply (processing_left_behind Samples.early
           (Samples.world [Samples.late; Samples.early] []));
    reflexivity.
Defined.

Lemma terminal_never_selected_witness :
  ((status Samples.early = pending
    \/ (status Samples.early = failed
        /\ (retryCountOf Samples.early < MAX_RETRIES)%Z))
   /\ (scheduledFor Samples.early <= 1000)%Z)
  /\ In Samples.spent
       (table (runSchedule 2
                 (Samples.world [Samples.spent; Samples.early] []))).
Proof.
  destruct terminal_never_selected as [Honly Hnever]. split.
  - apply (Honly 1000%Z [Samples.spent; Samples.early] Samples.early).
    vm_compute. left. reflexivity.
  - apply (Hnever Samples.spent
             (Samples.world [Samples.spent; Samples.early] []) 2%nat 0%Z).
    + repeat constructor; cbn; intuition discriminate.
    + left. reflexivity.
    + split; reflexivity.
Defined.

(** C9, as the code has it.  The batch has at most 10 posts, all of them
    eligible, and it is the first eligible rows in the order in which the
    store returns them: the query gives no [order]. *)
Theorem batch_in_scan_order now w batch w' :
  findAll (dueForProcessing now) batchLimit w = (Returned batch, w') ->
  (List.length batch <= 10)%nat
  /\ (forall p, In p batch -> dueForProcessing now p = true)
  /\ exists rest, filter (dueForProcessing now) (table w) = batch ++ rest.
Proof.
  unfold findAll, query, bind, external.
  destruct (reply 0 w) as [payload|msg]; [|discriminate].
  cbn [table setReplies]. intros [= <- _]. unfold select. repeat split.
  - apply firstn_le_length.
  - intros p Hp. apply (select_In _ batchLimit (table w) p Hp).
  - exists (skipn batchLimit (filter (dueForProcessing now) (table w))).
    symmetry. apply firstn_skipn.
Qed.

Lemma batch_in_scan_order_witness :
  (List.length [Samples.late; Samples.early] <= 10)%nat
  /\ (forall p, In p [Samples.late; Samples.early] ->
                dueForProcessing 1000 p = true)
  /\ exists rest,
       filter (dueForProcessing 1000)
         (table (Samples.world [Samples.late; Samples.spent; Samples.early]
                   []))
       = [Samples.late; Samples.early] ++ rest.
Proof.
  apply (batch_in_scan_order 1000%Z
           (Samples.world [Samples.late; Samples.spent; Samples.early] [])
           [Samples.late; Samples.early]
           (setReplies []
              (Samples.world [Samples.late; Samples.spent; Samples.early]
                 []))).
  reflexivity.
Defined.

(** C9, as stated, fails: the store holds a post due at 900 before a post
    due at 300; the batch, and the processing, take them in that order. *)
Lemma batch_not_sorted :
  fst (findAll (dueForProcessing 1000) batchLimit
         (Samples.world [Samples.late; Samples.early] []))
  = Returned [Samples.late; Samples.early]
  /\ (scheduledFor Samples.early < scheduledFor Samples.late)%Z
  /\ attempted
       (trace (snd (scheduledPostsTick
                      (Samples.world [Samples.late; Samples.early] []))))
     = ["late"; "early"].
Proof. repeat split. Qed.

(** C8.  When [processScheduledPost] throws on a post, the loop logs the
    failure and goes on with the rest of the batch; whatever the posts of a
    batch do, the loop enters [processScheduledPost] on every one of them, in
    order, and returns normally.  When the fetch fails, the handler of the
    cadence logs the failure and returns normally; and it returns normally
    from every world, so nothing propagates past a tick. *)
Theorem batch_isolation :
  (forall p rest w e w1,
      processScheduledPost p w = (Threw e, w1) ->
      processBatch (p :: rest) w
      = processBatch rest
          (emit (Logged Err [Txt "Failed to process post "; Txt (id p)]) w1))
  /\ (forall posts w,
        exists w',
          processBatch posts w = (Returned tt, w')
          /\ attempted (trace w') = attempted (trace w) ++ map id posts)
  /\ (forall w msg,
        reply 0 w = Rejects msg ->
        scheduledPostsTick w
        = (Returned tt,
           emit (Logged Err [Txt "Scheduled posts job error"])
             (setReplies (tl (replies w))
                (emit (Logged Info [Txt "Starting scheduled posts check..."])
                   w))))
  /\ (forall w, exists w', scheduledPostsTick w = (Returned tt, w')).
Proof.
  repeat split.
  - intros p rest w e w1 Hthrow. unfold processBatch. cbn [forEach].
    unfold bind at 1, tryCatch at 1. rewrite Hthrow. reflexivity.
  - apply processBatch_attempted.
  - intros w msg Hrej.
    unfold scheduledPostsTick, findAll, query, external, newDate, log,
      tryCatch, bind.
    cbv beta. rewrite reply_emit, Hrej. reflexivity.
  - apply scheduledPostsTick_returns.
Qed.

Lemma batch_isolation_witness :
  processBatch [Samples.retrying; Samples.early]
    (Samples.world [Samples.retrying; Samples.early] [Rejects "db down"])
  = processBatch [Samples.early]
      (emit (Logged Err [Txt "Failed to process post "; Txt "retrying"])
         (snd (processScheduledPost Samples.retrying
                 (Samples.world [Samples.retrying; Samples.early]
                    [Rejects "db down"]))))
  /\ scheduledPostsTick (Samples.world [Samples.early] [Rejects "db down"])
     = (Returned tt,
        emit (Logged Err [Txt "Scheduled posts job error"])
          (setReplies []
             (emit (Logged Info [Txt "Starting scheduled posts check..."])
                (Samples.world [Samples.early] [Rejects "db down"])))).
Proof.
  destruct batch_isolation as (Hitem & _ & Hfetch & _). split.
  - apply (Hitem Samples.retrying [Samples.early]
             (Samples.world [Samples.retrying; Samples.early]
                [Rejects "db down"])
             {| errClass := ScheduledPostError;
                message := "Failed to publish scheduled post: db down";
                errPostId := Some "retrying";
                errRetryCount := Some 2%Z |}).
    vm_compute. reflexivity.
  - apply (Hfetch (Samples.world [Samples.early] [Rejects "db down"])
             "db down").
    reflexivity.
Defined.

Lemma batch_of_three :
  map (fun p => (id p, status p, retryCountOf p))
    (table (snd (scheduledPostsTick
                   (Samples.world
                      [Samples.late; Samples.retrying; Samples.early]
                      [Succeeds ""; Succeeds ""; Succeeds "";
                       Rejects "db down"]))))
  = [("late", processing, 0%Z); ("retrying", pending, 2%Z);
     ("early", processing, 0%Z)].
Proof. reflexivity. Qed.

End SchedulerProps.

(* ================================================================== *)
(** * Further properties of the retry loop, the executor and the job    *)
(* ================================================================== *)

Module RetryExtras.

Import Js Async Retry RetryProps Job.
Local Open Scope string_scope.
Local Open Scope list_scope.

Section Loop.

Variable T : Type.
Variable script : nat -> Result Thrown T.
Variable maxAttempts : Z.
Variable operationName : string.
Variable baseDelay : Q.

Local Abbreviation loop :=
  (attemptsFrom (scripted script) maxAttempts operationName baseDelay).
Local Abbreviation wait :=
  (waitBeforeRetry maxAttempts operationName baseDelay).

Lemma sleeps_app a b : sleeps (a ++ b) = sleeps a ++ sleeps b.
Proof.
  induction a as [|e a IH]; [reflexivity|].
  destruct e; cbn [sleeps app]; rewrite IH; reflexivity.
Qed.

(** What waiting before a retry does to the world. *)
Lemma wait_effect attempt w :
  fst (wait attempt w) = Returned tt
  /\ calls (snd (wait attempt w)) = calls w
  /\ draws (snd (wait attempt w))
     = (if (0 <? attempt)%Z then tl (draws w) else draws w)
  /\ sleeps (trace (snd (wait attempt w)))
     = sleeps (trace w)
       ++ (if (0 <? attempt)%Z
           then [Backoff.calculateExponentialBackoff (hd 0%Q (draws w))
                   (attempt - 1) baseDelay Backoff.defaultMaxDelay]
           else []).
Proof.
  unfold waitBeforeRetry. destruct (0 <? attempt)%Z; cbn.
  - repeat split. rewrite !sleeps_app. cbn. rewrite app_nil_r. reflexivity.
  - repeat split. symmetry. apply app_nil_r.
Qed.

(** One iteration of the loop, exactly. *)
Lemma loop_unfold remaining attempt lastError w :
  loop (S remaining) attempt lastError w =
  let w1 := setCalls (S (calls w)) (snd (wait attempt w)) in
  match script (calls w) with
  | Returned v => (Returned v, w1)
  | Threw t =>
      let w2 := emit (Logged Warn [Txt operationName; Txt " attempt ";
                                   Num (attempt + 1); Txt " failed:"]) w1 in
      if rethrows maxAttempts (toError t) attempt
      then (Threw (toError t), w2)
      else loop remaining (attempt + 1)%Z (Some (toError t)) w2
  end.
Proof.
  destruct (wait_effect attempt w) as (Hr & Hc & _).
  cbn [attemptsFrom]. unfold tryCatch at 1. unfold bind at 1.
  destruct (wait attempt w) as [r w0]. cbn [fst snd] in *. subst r.
  unfold scripted. rewrite Hc.
  destruct (script (calls w)) as [v|t]; [reflexivity|].
  unfold bind, log. cbv zeta.
  destruct (rethrows maxAttempts (toError t) attempt); reflexivity.
Qed.

(** The loop never makes more invocations than it has iterations. *)
Lemma loop_calls_le remaining : forall attempt lastError w,
  (calls (snd (loop remaining attempt lastError w))
   <= calls w + remaining)%nat.
Proof.
  induction remaining as [|r IH]; intros attempt lastError w.
  - cbn. lia.
  - rewrite loop_unfold. cbv zeta.
    destruct (wait_effect attempt w) as (_ & Hc & _).
    destruct (script (calls w)) as [v|t]; [cbn; lia|].
    destruct (rethrows maxAttempts (toError t) attempt); [cbn; lia|].
    etransitivity; [apply IH|]. cbn. lia.
Qed.

(** Where the outcome of the loop comes from. *)
Lemma loop_outcome remaining : forall attempt lastError w,
  let out := loop remaining attempt lastError w in
  match fst out with
  | Returned v =>
      (calls w < calls (snd out))%nat
      /\ script (calls (snd out) - 1)%nat = Returned v
  | Threw e =>
      (exists t, (calls w < calls (snd out))%nat
                 /\ script (calls (snd out) - 1)%nat = Threw t
                 /\ (e = toError t
                     \/ (e = exhausted maxAttempts operationName
                               (Some (toError t))
                         /\ calls (snd out) = (calls w + remaining)%nat)))
      \/ (remaining = 0%nat /\ calls (snd out) = calls w
          /\ e = exhausted maxAttempts operationName lastError)
  end.
Proof.
  induction remaining as [|r IH]; intros attempt lastError w.
  - cbn. right. repeat split.
  - cbv zeta. rewrite loop_unfold. cbv zeta.
    destruct (wait_effect attempt w) as (_ & Hc & _).
    destruct (script (calls w)) as [v|t] eqn:Hs.
    + cbn [fst snd calls setCalls]. split; [lia|].
      rewrite <- Hs. f_equal. lia.
    + destruct (rethrows maxAttempts (toError t) attempt).
      * cbn [fst snd calls setCalls emit]. left. exists t.
        split; [lia|]. split; [rewrite <- Hs; f_equal; lia|]. left.
        reflexivity.
      * match goal with |- context [loop r ?a ?l ?w2] =>
          specialize (IH a l w2); cbv zeta in IH;
          assert (calls w2 = S (calls w)) as Hc2 by reflexivity;
          destruct (loop r a l w2) as [[v|e] w'] end;
          cbn [fst snd] in *.
        -- destruct IH as [Hlt Hv]. split; [lia|exact Hv].
        -- left. destruct IH as [(t' & Hlt & Ht' & Hcase)|(-> & Hcalls & ->)].
           ++ exists t'. split; [lia|]. split; [exact Ht'|].
              destruct Hcase as [->|[-> Hn]]; [left; reflexivity|].
              right. split; [reflexivity|lia].
           ++ exists t. split; [lia|]. rewrite Hcalls, Hc2.
              split; [rewrite <- Hs; f_equal; lia|]. right.
              split; [reflexivity|lia].
Qed.

(** The delays of a run: the [i]-th sleep uses the [i]-th draw. *)
Lemma loop_sleeps_later remaining : forall attempt lastError w,
  (0 < attempt)%Z ->
  sleeps (trace (snd (loop remaining attempt lastError w)))
  = sleeps (trace w)
    ++ map (fun i => Backoff.calculateExponentialBackoff
                       (nth i (draws w) 0%Q) (attempt - 1 + Z.of_nat i)
                       baseDelay Backoff.defaultMaxDelay)
         (seq 0 (calls (snd (loop remaining attempt lastError w))
                 - calls w)).
Proof.
  induction remaining as [|r IH]; intros attempt lastError w Hpos.
  - cbn. rewrite Nat.sub_diag. symmetry. apply app_nil_r.
  - rewrite loop_unfold. cbv zeta.
    destruct (wait_effect attempt w) as (_ & Hc & Hd & Hs).
    apply Z.ltb_lt in Hpos. rewrite Hpos in Hd, Hs.
    assert (forall (l : list Q), hd 0%Q l = nth 0 l 0%Q) as Hhd
        by (intros [|? ?]; reflexivity).
    destruct (script (calls w)) as [v|t].
    { cbn [fst snd calls setCalls trace].
      replace (S (calls w) - calls w)%nat with 1%nat by lia.
      rewrite Hs. cbn [seq map]. rewrite Z.add_0_r, Hhd. reflexivity. }
    destruct (rethrows maxAttempts (toError t) attempt).
    { cbn [fst snd calls setCalls trace emit].
      replace (S (calls w) - calls w)%nat with 1%nat by lia.
      rewrite sleeps_app, Hs. cbn [sleeps seq map].
      rewrite app_nil_r, Z.add_0_r, Hhd. reflexivity. }
    match goal with |- context [loop r ?a ?l ?w2] =>
      pose proof (IH a l w2 ltac:(apply Z.ltb_lt in Hpos; lia)) as IH';
      pose proof (loop_calls_mono T script maxAttempts operationName
                    baseDelay r a l w2) as Hmono;
      assert (calls w2 = S (calls w)) as Hc2 by reflexivity;
      assert (draws w2 = tl (draws w)) as Hd2 by exact Hd;
      assert (sleeps (trace w2)
              = sleeps (trace w)
                ++ [Backoff.calculateExponentialBackoff (hd 0%Q (draws w))
                      (attempt - 1) baseDelay Backoff.defaultMaxDelay])
        as Hs2
          by (cbn [trace emit setCalls]; rewrite sleeps_app, Hs;
              cbn [sleeps]; apply app_nil_r);
      set (out := loop r a l w2) in *
    end.
    rewrite IH', Hs2, Hd2, Hc2.
    replace (calls (snd out) - calls w)%nat
      with (S (calls (snd out) - S (calls w))) by lia.
    cbn [seq map]. rewrite <- app_assoc. cbn [app]. f_equal. f_equal.
    + rewrite Z.add_0_r, Hhd. reflexivity.
    + rewrite <- seq_shift, map_map. apply map_ext. intros i.
      f_equal; [destruct (draws w); [destruct i|]; reflexivity|lia].
Qed.

End Loop.

(** *** Early success *)

(** X1.  [retryWithBackoff] returns the first success: when the first [k]
    invocations of the operation fail with errors whose message does not
    contain 'ENOTFOUND', [k < maxAttempts], and invocation [k] succeeds
    with [v], the call returns [v] after exactly [k + 1] invocations. *)
Theorem retry_early_success T (script : nat -> Result Thrown T)
    n name base w k v :
  (Z.of_nat k < n)%Z ->
  (forall j, (j < k)%nat ->
     exists tj, script (calls w + j)%nat = Threw tj
                /\ includes "ENOTFOUND" (message (toError tj)) = false) ->
  script (calls w + k)%nat = Returned v ->
  fst (retryWithBackoff (scripted script) n name base w) = Returned v
  /\ calls (snd (retryWithBackoff (scripted script) n name base w))
     = (calls w + k + 1)%nat.
Proof.
  intros Hk Hpre Hv.
  assert (Z.to_nat n = (k + S (Z.to_nat n - k - 1))%nat) as Hsplit by lia.
  destruct (loop_skip T script n name base k (S (Z.to_nat n - k - 1))
              0%Z None w) as (w1 & last & Hc1 & Hrun).
  { intros j Hj. destruct (Hpre j Hj) as (tj & Htj & Hnf).
    exists tj. split; [exact Htj|]. unfold rethrows. rewrite Hnf.
    replace (0 + Z.of_nat j =? n - 1)%Z with false
      by (symmetry; apply Z.eqb_neq; lia).
    rewrite andb_false_r. reflexivity. }
  unfold retryWithBackoff. rewrite Hsplit, Hrun, loop_unfold.
  rewrite Hc1, Hv. cbn. split; [reflexivity|lia].
Qed.

Lemma retry_early_success_witness :
  fst (retryWithBackoff (scripted Samples.secondTime) 3 "publishPost"
         1500%Q (Samples.world [] []))
  = Returned "post-77"
  /\ calls (snd (retryWithBackoff (scripted Samples.secondTime) 3
                   "publishPost" 1500%Q (Samples.world [] [])))
     = (0 + 1 + 1)%nat.
Proof.
  apply (retry_early_success string Samples.secondTime 3 "publishPost"
           1500%Q (Samples.world [] []) 1 "post-77").
  - lia.
  - intros j Hj. assert (j = 0%nat) as -> by lia.
    eexists. split; reflexivity.
  - reflexivity.
Defined.

(** *** Bounds on the invocations *)

(** X2.  [retryWithBackoff] never invokes the operation more than
    [maxAttempts] times, whatever the operation does, and invokes it at
    least once when [maxAttempts >= 1]. *)
Theorem retry_invocation_bound T (script : nat -> Result Thrown T)
    n name base w :
  (calls w <= calls (snd (retryWithBackoff (scripted script) n name base w))
   <= calls w + Z.to_nat n)%nat
  /\ ((1 <= n)%Z ->
      (calls w + 1
       <= calls (snd (retryWithBackoff (scripted script) n name base w)))%nat).
Proof.
  unfold retryWithBackoff. repeat split.
  - apply loop_calls_mono.
  - apply loop_calls_le.
  - intros Hn. destruct (Z.to_nat n) as [|r] eqn:Hr; [lia|].
    rewrite Nat.add_1_r. apply loop_invokes.
Qed.

(** *** Where the outcome comes from *)

(** X3.  For [maxAttempts >= 1] the outcome of [retryWithBackoff] is
    that of the last invocation made: a returned value is the one the last
    invocation returned; a thrown error is either the error of the last
    invocation itself, or the error
    `<name> failed after <maxAttempts> attempts: <message of the last
    error>`, and then all [maxAttempts] invocations were made. *)
Theorem retry_outcome_of_last_invocation T (script : nat -> Result Thrown T)
    n name base w :
  (1 <= n)%Z ->
  let out := retryWithBackoff (scripted script) n name base w in
  match fst out with
  | Returned v => script (calls (snd out) - 1)%nat = Returned v
  | Threw e =>
      exists t,
        script (calls (snd out) - 1)%nat = Threw t
        /\ (e = toError t
            \/ (e = newError (name ++ " failed after " ++ showZ n
                              ++ " attempts: " ++ message (toError t))
                /\ calls (snd out) = (calls w + Z.to_nat n)%nat))
  end.
Proof.
  intros Hn out.
  pose proof (loop_outcome T script n name base (Z.to_nat n) 0%Z None w)
    as Hout.
  cbv zeta in Hout. fold (retryWithBackoff (scripted script) n name base)
    in Hout. fold out in Hout.
  destruct (fst out) as [v|e]; [apply Hout|].
  destruct Hout as [(t & _ & Ht & Hcase)|(Hz & _)]; [|lia].
  exists t. split; [exact Ht|exact Hcase].
Qed.

Lemma retry_outcome_of_last_invocation_witness :
  Samples.secondTime
    (calls (snd (retryWithBackoff (scripted Samples.secondTime) 3
                   "publishPost" 1500%Q (Samples.world [] []))) - 1)%nat
  = Returned "post-77".
Proof.
  apply (retry_outcome_of_last_invocation string Samples.secondTime 3
           "publishPost" 1500%Q (Samples.world [] [])).
  lia.
Defined.

(** *** The sleeps *)

Lemma retryWithBackoff_sleeps T (script : nat -> Result Thrown T)
    n name base w :
  sleeps (trace (snd (retryWithBackoff (scripted script) n name base w)))
  = sleeps (trace w)
    ++ map (fun i => Backoff.calculateExponentialBackoff
                       (nth i (draws w) 0%Q) (Z.of_nat i) base
                       Backoff.defaultMaxDelay)
         (seq 0 (calls (snd (retryWithBackoff (scripted script) n name
                               base w))
                 - calls w - 1)).
Proof.
  unfold retryWithBackoff. destruct (Z.to_nat n) as [|r].
  - cbn. rewrite Nat.sub_diag. symmetry. apply app_nil_r.
  - rewrite loop_unfold. cbv zeta.
    destruct (wait_effect n name base 0%Z w) as (_ & Hc & Hd & Hs).
    cbn [Z.ltb Z.compare] in Hd, Hs. rewrite app_nil_r in Hs.
    destruct (script (calls w)) as [v|t].
    { cbn [fst snd calls setCalls trace].
      replace (S (calls w) - calls w - 1)%nat with 0%nat by lia.
      rewrite Hs. symmetry. apply app_nil_r. }
    destruct (rethrows n (toError t) 0).
    { cbn [fst snd calls setCalls trace emit].
      replace (S (calls w) - calls w - 1)%nat with 0%nat by lia.
      rewrite sleeps_app, Hs. reflexivity. }
    rewrite (loop_sleeps_later T script n name base r (0 + 1)%Z);
      [|lia].
    cbn [trace emit setCalls draws calls]. rewrite sleeps_app, Hs, Hd.
    cbn [sleeps]. rewrite app_nil_r. f_equal.
    match goal with |- map _ (seq 0 ?a) = map _ (seq 0 ?b) =>
      replace b with a by lia end.
    apply map_ext. intros i. f_equal; lia.
Qed.


Lemma nth_unitDraw i (l : list Q) :
  Forall Backoff.unitDraw l -> Backoff.unitDraw (nth i l 0%Q).
Proof.
  intros Hall. revert i.
  induction Hall as [|r l Hr _ IH]; intros [|i]; cbn [nth];
    try (split; [apply Qle_refl|reflexivity]); [exact Hr|apply IH].
Qed.

(** X5.  With draws of [Math.random] in [0, 1) and a non-negative
    [baseDelay], every sleep of a [retryWithBackoff] run lasts between 0
    and 33000 ms (the default cap of 30000 ms plus 10% jitter), and there
    is one sleep less than there are invocations. *)
Theorem retry_sleeps_bounded T (script : nat -> Result Thrown T)
    n name base w :
  Forall Backoff.unitDraw (draws w) -> (0 <= base)%Q ->
  exists delays,
    sleeps (trace (snd (retryWithBackoff (scripted script) n name base w)))
    = sleeps (trace w) ++ delays
    /\ List.length delays
       = (calls (snd (retryWithBackoff (scripted script) n name base w))
          - calls w - 1)%nat
    /\ forall d, In d delays -> (0 <= d)%Q /\ (d <= 33000)%Q.
Proof.
  intros Hdraws Hbase. eexists. split; [apply retryWithBackoff_sleeps|].
  split; [rewrite length_map, length_seq; reflexivity|].
  intros d Hd. apply in_map_iff in Hd. destruct Hd as (i & <- & _).
  pose proof (nth_unitDraw i _ Hdraws) as Hr.
  assert (0 <= Backoff.defaultMaxDelay)%Q as Hmax by discriminate.
  pose proof (BackoffProps.cappedDelay_nonneg (Z.of_nat i) _ _ Hbase Hmax)
    as Hc.
  pose proof (BackoffProps.cappedDelay_le_max (Z.of_nat i) base
                Backoff.defaultMaxDelay) as Hcap.
  destruct (BackoffProps.jitter_bounds _ _ Hr Hc) as [J0 J1].
  unfold Backoff.calculateExponentialBackoff. cbv zeta.
  unfold Backoff.defaultMaxDelay in Hcap at 2. split; lra.
Qed.

Lemma retry_sleeps_bounded_witness :
  exists delays,
    sleeps (trace (snd (retryWithBackoff (scripted Samples.timingOut) 3
                          "Database connection" 2000%Q
                          (Samples.world [] []))))
    = sleeps (trace (Samples.world [] [])) ++ delays
    /\ List.length delays
       = (calls (snd (retryWithBackoff (scripted Samples.timingOut) 3
                        "Database connection" 2000%Q
                        (Samples.world [] [])))
          - calls (Samples.world [] []) - 1)%nat
    /\ forall d, In d delays -> (0 <= d)%Q /\ (d <= 33000)%Q.
Proof.
  apply (retry_sleeps_bounded unit Samples.timingOut 3 "Database connection"
           2000%Q (Samples.world [] [])).
  - repeat constructor; discriminate.
  - discriminate.
Defined.

End RetryExtras.

Module ExecutorExtras.

Import Js Model Async Store Autopilot Job Wp WpProps SchedulerProps.
Local Open Scope string_scope.
Local Open Scope list_scope.

Lemma find_upsert_at i p rows :
  id p = i -> find (hasId i) (upsert p rows) = Some p.
Proof. intros <-. apply find_upsert. Qed.

Lemma find_hasId i rows q : find (hasId i) rows = Some q -> id q = i.
Proof. intros H. apply find_some in H. apply String.eqb_eq, H. Qed.

(** Steps through the executor, case by case on the replies. *)
Ltac wp_reply :=
  lazymatch goal with
  | |- match reply 0 ?w with _ => _ end => destruct (reply 0 w) eqn:?
  end.

Ltac wp_exec :=
  repeat first
    [ wp_step
    | apply wp_save; wp_reply
    | apply wp_findByPk; wp_reply
    | progress unfold publishPost, accountOf, newScheduledPostError,
        publishFailed, publishAttempt ].

Ltac stored_now :=
  unfold stored;
  cbn [table setTable setReplies setClock setDraws setCalls emit];
  rewrite find_upsert_at by reflexivity.

(** X6.  [executeScheduledPost] on a post that is absent or whose stored
    status is not 'pending' returns [null] when its read succeeds: it
    writes nothing and makes no call beyond that read. *)
Theorem executor_skips postId w :
  succeeds (reply 0 w) = true ->
  (forall q, stored postId w = Some q -> status q <> pending) ->
  fst (executeScheduledPost postId w) = Returned None
  /\ table (snd (executeScheduledPost postId w)) = table w
  /\ replies (snd (executeScheduledPost postId w)) = tl (replies w).
Proof.
  intros Hok Hnot.
  change (wp (executeScheduledPost postId)
            (fun r w' => r = Returned None /\ table w' = table w
                         /\ replies w' = tl (replies w)) w).
  unfold executeScheduledPost. wp_step. wp_step. wp_step.
  apply wp_findByPk. rewrite reply_emit.
  destruct (reply 0 w) as [payload|msg]; [|discriminate].
  cbn [table emit]. fold (stored postId w).
  destruct (stored postId w) as [q|] eqn:Hq.
  - specialize (Hnot q eq_refl).
    destruct (status q); try contradiction; cbn [Status_eqb negb];
      wp_go; repeat split.
  - wp_go. repeat split.
Qed.

(** X7.  What the outcome of [executeScheduledPost] says about the
    store, for every world: when it returns [null] no row has changed; when
    it returns a post, that post is the stored row, with status 'published'
    and [publishedContentId] and [publishedAt] set; when it throws a
    [FacebookAPIError] or a [ScheduledPostError], the stored row has status
    'failed' and its [errorMessage] is the message of the cause. *)
Theorem executor_outcome postId w :
  match fst (executeScheduledPost postId w) with
  | Returned None => table (snd (executeScheduledPost postId w)) = table w
  | Returned (Some p) =>
      stored postId (snd (executeScheduledPost postId w)) = Some p
      /\ status p = published
      /\ publishedContentId p <> None
      /\ publishedAt p <> None
  | Threw e =>
      errClass e <> PlainError ->
      exists row cause,
        stored postId (snd (executeScheduledPost postId w)) = Some row
        /\ status row = failed
        /\ errorMessage row = Some cause
        /\ (message e = cause
            \/ message e = "Failed to execute scheduled post: " ++ cause)%string
  end.
Proof.
  change (wp (executeScheduledPost postId)
            (fun r w' =>
               match r with
               | Returned None => table w' = table w
               | Returned (Some p) =>
                   stored postId w' = Some p /\ status p = published
                   /\ publishedContentId p <> None /\ publishedAt p <> None
               | Threw e =>
                   errClass e <> PlainError ->
                   exists row cause,
                     stored postId w' = Some row /\ status row = failed
                     /\ errorMessage row = Some cause
                     /\ (message e = cause
                         \/ message e
                            = "Failed to execute scheduled post: "
                              ++ cause)%string
               end) w).
  unfold executeScheduledPost. wp_step. wp_step. wp_step.
  apply wp_findByPk. wp_reply; [|intros H; exfalso; apply H; reflexivity].
  cbn [table emit].
  destruct (find (hasId postId) (table w)) as [found|] eqn:Hfind;
    [|wp_go; reflexivity].
  apply find_hasId in Hfind. subst postId.
  wp_step; [wp_go; reflexivity|].
  wp_exec;
    try (intros Hcls; exfalso; apply Hcls; reflexivity);
    try (intros _; eexists; eexists; stored_now;
         repeat split; first [left; reflexivity | right; reflexivity]);
    try (stored_now; repeat split; discriminate).
Qed.

(** Steps through the executor when the replies are known. *)
Ltac wp_known :=
  repeat first
    [ match goal with
      | H : reply ?k ?w = _ |- context [reply ?k ?w] => rewrite H
      | H : falsy ?x = _ |- context [falsy ?x] => rewrite H
      | H : facebookAccount ?p = _ |- context [facebookAccount ?p] =>
          rewrite H
      end
    | progress cbn [orb facebookAccount setStatus isFacebookAPIError
                    errClass newFacebookAPIError newError]
    | progress autorewrite with world
    | wp_step
    | apply wp_save
    | apply wp_findByPk
    | progress unfold publishPost, accountOf, newScheduledPostError,
        publishFailed, publishAttempt ].

Section Configured.

Variable postId : string.
Variable post : ScheduledPost.
Variable account : FacebookAccount.
Variable w : World.

Hypothesis post_stored : stored postId w = Some post.
Hypothesis post_pending : status post = pending.
Hypothesis post_account : facebookAccount post = Some account.
Hypothesis page_set : falsy (pageId account) = false.
Hypothesis token_set : falsy (pageAccessToken account) = false.
Hypothesis read_ok : succeeds (reply 0 w) = true.
Hypothesis mark_ok : succeeds (reply 1 w) = true.

Ltac enter :=
  unfold executeScheduledPost;
  destruct (reply 0 w) as [payload0|msg0] eqn:H0; [|discriminate];
  destruct (reply 1 w) as [payload1|msg1] eqn:H1; [|discriminate];
  pose proof (find_hasId _ _ _ post_stored) as Hid;
  unfold stored in post_stored;
  wp_step; wp_step; wp_step; apply wp_findByPk;
  rewrite reply_emit, H0; cbn [table emit]; rewrite post_stored;
  rewrite post_pending; cbn [Status_eqb negb];
  wp_step; unfold publishAttempt;
  pose proof post_account as Hacc; pose proof page_set as Hpage;
  pose proof token_set as Htoken;
  wp_known.


(** The publication fails. *)
Lemma executor_publish_fails_run msg :
  reply 2 w = Rejects msg -> succeeds (reply 3 w) = true ->
  wp (executeScheduledPost postId)
     (fun r w' =>
        r = Threw (newFacebookAPIError msg)
        /\ exists row,
             stored postId w' = Some row /\ status row = failed
             /\ errorMessage row = Some msg
             /\ publishedContentId row = publishedContentId post
             /\ metadata row = metadata post) w.
Proof.
  intros H2 H3. destruct (reply 3 w) as [payload3|msg3] eqn:H3';
    [|discriminate].
  enter. split; [reflexivity|]. eexists. split.
  - unfold stored.
    cbn [table setTable setReplies setClock setDraws setCalls emit].
    apply find_upsert_at. exact Hid.
  - repeat split.
Qed.


End Configured.



(** X9.  When the publication is rejected (and the writes succeed),
    [executeScheduledPost] stores the post as 'failed' with the message of
    the rejection as [errorMessage], leaves [publishedContentId] and the
    metadata as they were, and rethrows the [FacebookAPIError] itself. *)
Theorem executor_publish_fails postId post account w msg :
  stored postId w = Some post -> status post = pending ->
  facebookAccount post = Some account ->
  falsy (pageId account) = false -> falsy (pageAccessToken account) = false ->
  succeeds (reply 0 w) = true -> succeeds (reply 1 w) = true ->
  reply 2 w = Rejects msg -> succeeds (reply 3 w) = true ->
  fst (executeScheduledPost postId w) = Threw (newFacebookAPIError msg)
  /\ exists row,
       stored postId (snd (executeScheduledPost postId w)) = Some row
       /\ status row = failed
       /\ errorMessage row = Some msg
       /\ publishedContentId row = publishedContentId post
       /\ metadata row = metadata post.
Proof.
  intros Hst Hpend Hacc Hpage Htok H0 H1 H2 H3.
  exact (executor_publish_fails_run postId post account w Hst Hpend Hacc
           Hpage Htok H0 H1 msg H2 H3).
Qed.

Lemma executor_publish_fails_witness :
  fst (executeScheduledPost "early"
         (Samples.world [Samples.early]
            [Succeeds ""; Succeeds ""; Rejects "Rate limit exceeded"]))
  = Threw (newFacebookAPIError "Rate limit exceeded")
  /\ exists row,
       stored "early"
         (snd (executeScheduledPost "early"
                 (Samples.world [Samples.early]
                    [Succeeds ""; Succeeds ""; Rejects "Rate limit exceeded"])))
       = Some row
       /\ status row = failed
       /\ errorMessage row = Some "Rate limit exceeded"
       /\ publishedContentId row = publishedContentId Samples.early
       /\ metadata row = metadata Samples.early.
Proof.
  apply (executor_publish_fails "early" Samples.early Samples.page
           (Samples.world [Samples.early]
              [Succeeds ""; Succeeds ""; Rejects "Rate limit exceeded"])
           "Rate limit exceeded");
    reflexivity.
Defined.



Lemma executor_skips_witness :
  fst (executeScheduledPost "spent" (Samples.world [Samples.spent] []))
  = Returned None
  /\ table (snd (executeScheduledPost "spent"
                   (Samples.world [Samples.spent] [])))
     = table (Samples.world [Samples.spent] [])
  /\ replies (snd (executeScheduledPost "spent"
                     (Samples.world [Samples.spent] [])))
     = tl (replies (Samples.world [Samples.spent] [])).
Proof.
  apply (executor_skips "spent" (Samples.world [Samples.spent] [])).
  - reflexivity.
  - intros q [= <-]. discriminate.
Defined.

End ExecutorExtras.

Module ProcessorExtras.

Import Js Model Async Store Autopilot Job Wp WpProps SchedulerProps
  ExecutorExtras.
Local Open Scope string_scope.
Local Open Scope list_scope.

Lemma executionFailed_final rc err inst w1 :
  (MAX_RETRIES <= rc + 1)%Z -> succeeds (reply 0 w1) = true ->
  wp (executionFailed rc (err, inst))
     (fun r w' =>
        r = Threw {| errClass := ScheduledPostError;
                     message := "Failed to publish scheduled post: "
                                ++ message err;
                     errPostId := Some (id inst);
                     errRetryCount := Some (rc + 1)%Z |}
        /\ stored (id inst) w'
           = Some (setMetadata
                     (withFinal (rc + 1) (message err) (clock w1)
                        (spread (metadata inst)))
                     (setErrorMessage (message err)
                        (setStatus failed inst)))) w1.
Proof.
  intros Hrc Hok. apply Z.ltb_ge in Hrc.
  unfold executionFailed. cbv zeta. rewrite Hrc.
  destruct (reply 0 w1) as [payload|msg] eqn:H0; [clear Hok|discriminate].
  wp_known. split; [reflexivity|].
  unfold stored. cbn [table setTable setReplies setDraws emit clock].
  apply find_upsert_at. reflexivity.
Qed.

Lemma executionFailed_unrecorded rc err inst w1 msg :
  reply 0 w1 = Rejects msg ->
  wp (executionFailed rc (err, inst))
     (fun r w' => r = Threw (newError msg) /\ table w' = table w1) w1.
Proof.
  intros H0. unfold executionFailed. cbv zeta.
  destruct (rc + 1 <? MAX_RETRIES)%Z; wp_known; split; reflexivity.
Qed.

Lemma processScheduledPost_failed p w err inst w1 :
  executionAttempt p (retryCountOf p) (entering p w)
  = (Threw (err, inst), w1) ->
  processScheduledPost p w
  = executionFailed (retryCountOf p) (err, inst) w1.
Proof.
  intros Hfail. unfold processScheduledPost, bind, log, tryCatch.
  fold (entering p w). rewrite Hfail. reflexivity.
Qed.

(** X11.  When the attempt of [processScheduledPost] fails, the new
    retry count reaches [MAX_RETRIES] and the write-back succeeds, the post
    is stored as 'failed' with the error message, and its metadata carries
    the new retry count, [finalError] and [failedAt] (the time of the
    write-back). *)
Theorem final_failure_bookkeeping p w err inst w1 :
  executionAttempt p (retryCountOf p) (entering p w)
  = (Threw (err, inst), w1) ->
  (MAX_RETRIES <= retryCountOf p + 1)%Z ->
  succeeds (reply 0 w1) = true ->
  exists row m,
    stored (id p) (snd (processScheduledPost p w)) = Some row
    /\ status row = failed
    /\ errorMessage row = Some (message err)
    /\ metadata row = Some m
    /\ retryCount m = Some (retryCountOf p + 1)%Z
    /\ finalError m = Some (message err)
    /\ failedAt m = Some (clock w1).
Proof.
  intros Hfail Hrc Hok.
  pose proof (executionAttempt_instance _ _ _ _ _ _ Hfail) as Hid.
  pose proof (executionFailed_final (retryCountOf p) err inst w1 Hrc Hok)
    as Hfin.
  unfold wp in Hfin. destruct Hfin as [_ Hst].
  rewrite (processScheduledPost_failed p w err inst w1 Hfail).
  rewrite Hid in Hst. eexists. eexists. split; [exact Hst|]. repeat split.
Qed.

(** X12.  When the attempt of [processScheduledPost] fails and the
    write-back succeeds, the call throws a [ScheduledPostError]
    `Failed to publish scheduled post: <message>` that carries the id of
    the post and the new retry count, whether or not retries are left. *)
Theorem failure_is_reported p w err inst w1 :
  executionAttempt p (retryCountOf p) (entering p w)
  = (Threw (err, inst), w1) ->
  succeeds (reply 0 w1) = true ->
  fst (processScheduledPost p w)
  = Threw {| errClass := ScheduledPostError;
             message := "Failed to publish scheduled post: " ++ message err;
             errPostId := Some (id p);
             errRetryCount := Some (retryCountOf p + 1)%Z |}.
Proof.
  intros Hfail Hok.
  pose proof (executionAttempt_instance _ _ _ _ _ _ Hfail) as Hid.
  rewrite (processScheduledPost_failed p w err inst w1 Hfail).
  destruct (Z.lt_ge_cases (retryCountOf p + 1) MAX_RETRIES) as [Hlt|Hge].
  - pose proof (executionFailed_persists (retryCountOf p) err inst w1 Hlt Hok)
      as H. unfold wp in H. rewrite (proj1 H), Hid. reflexivity.
  - pose proof (executionFailed_final (retryCountOf p) err inst w1 Hge Hok)
      as H. unfold wp in H. rewrite (proj1 H), Hid. reflexivity.
Qed.

(** X13.  When the attempt of [processScheduledPost] fails and the
    write-back in the catch block is rejected too, the call throws the
    error of the database as it is, and the table is left as the attempt
    left it: neither the new retry count nor the new status is stored. *)
Theorem write_back_failure_loses_the_attempt p w err inst w1 msg :
  executionAttempt p (retryCountOf p) (entering p w)
  = (Threw (err, inst), w1) ->
  reply 0 w1 = Rejects msg ->
  fst (processScheduledPost p w) = Threw (newError msg)
  /\ table (snd (processScheduledPost p w)) = table w1.
Proof.
  intros Hfail Hrej.
  rewrite (processScheduledPost_failed p w err inst w1 Hfail).
  exact (executionFailed_unrecorded (retryCountOf p) err inst w1 msg Hrej).
Qed.

Lemma final_failure_bookkeeping_witness :
  exists row m,
    stored "last-chance"
      (snd (processScheduledPost Samples.lastChance
              (Samples.world [Samples.lastChance] [Rejects "db down"])))
    = Some row
    /\ status row = failed
    /\ errorMessage row = Some "db down"
    /\ metadata row = Some m
    /\ retryCount m = Some 3%Z
    /\ finalError m = Some "db down"
    /\ failedAt m = Some 3100%Z.
Proof.
  apply (final_failure_bookkeeping Samples.lastChance
           (Samples.world [Samples.lastChance] [Rejects "db down"])
           (newError "db down") (setStatus processing Samples.lastChance)
           (snd (executionAttempt Samples.lastChance 2
                   (entering Samples.lastChance
                      (Samples.world [Samples.lastChance]
                         [Rejects "db down"]))))).
  - vm_compute. reflexivity.
  - vm_compute. discriminate.
  - vm_compute. reflexivity.
Defined.

Lemma failure_is_reported_witness :
  fst (processScheduledPost Samples.lastChance
         (Samples.world [Samples.lastChance] [Rejects "db down"]))
  = Threw {| errClass := ScheduledPostError;
             message := "Failed to publish scheduled post: db down";
             errPostId := Some "last-chance";
             errRetryCount := Some 3%Z |}.
Proof.
  apply (failure_is_reported Samples.lastChance
           (Samples.world [Samples.lastChance] [Rejects "db down"])
           (newError "db down") (setStatus processing Samples.lastChance)
           (snd (executionAttempt Samples.lastChance 2
                   (entering Samples.lastChance
                      (Samples.world [Samples.lastChance]
                         [Rejects "db down"]))))).
  - vm_compute. reflexivity.
  - vm_compute. reflexivity.
Defined.

Lemma write_back_failure_loses_the_attempt_witness :
  fst (processScheduledPost Samples.retrying
         (Samples.world [Samples.retrying]
            [Rejects "db down"; Rejects "still down"]))
  = Threw (newError "still down")
  /\ table (snd (processScheduledPost Samples.retrying
                   (Samples.world [Samples.retrying]
                      [Rejects "db down"; Rejects "still down"])))
     = [Samples.retrying].
Proof.
  apply (write_back_failure_loses_the_attempt Samples.retrying
           (Samples.world [Samples.retrying]
              [Rejects "db down"; Rejects "still down"])
           (newError "db down") (setStatus processing Samples.retrying)
           (snd (executionAttempt Samples.retrying 1
                   (entering Samples.retrying
                      (Samples.world [Samples.retrying]
                         [Rejects "db down"; Rejects "still down"]))))
           "still down").
  - vm_compute. reflexivity.
  - vm_compute. reflexivity.
Defined.

End ProcessorExtras.

Module SchedulerExtras.

Import Js Model Async Store Autopilot Job Wp WpProps SchedulerProps.
Local Open Scope string_scope.
Local Open Scope list_scope.

(** *** The retry count stays bounded *)

Lemma upsert_In p rows q : In q (upsert p rows) -> q = p \/ In q rows.
Proof.
  unfold upsert. destruct (existsb _ rows).
  - intros Hin. apply in_map_iff in Hin. destruct Hin as (r & Hr & Hin).
    destruct (hasId (id p) r); [left; symmetry; exact Hr|].
    right. subst q. exact Hin.
  - intros Hin. apply in_app_or in Hin. destruct Hin as [Hin|[->|[]]].
    + right. exact Hin.
    + left. reflexivity.
Qed.

Lemma bounded_upsert p w0 w :
  withinRetries p -> retriesBounded w0 ->
  retriesBounded (setTable (upsert p (table w0)) w).
Proof.
  intros Hp Hw q Hq. cbn [table setTable] in Hq.
  apply upsert_In in Hq. destruct Hq as [->|Hq]; [exact Hp|apply Hw, Hq].
Qed.

Lemma bounded_emit e w : retriesBounded w -> retriesBounded (emit e w).
Proof. exact (fun H => H). Qed.

Lemma bounded_setReplies r w :
  retriesBounded w -> retriesBounded (setReplies r w).
Proof. exact (fun H => H). Qed.

Lemma bounded_setClock c w :
  retriesBounded w -> retriesBounded (setClock c w).
Proof. exact (fun H => H). Qed.

Lemma bounded_setDraws d w :
  retriesBounded w -> retriesBounded (setDraws d w).
Proof. exact (fun H => H). Qed.

(** A row that does not wait for an attempt only needs a bounded count. *)
Lemma settled_within p :
  (retryCountOf p <= MAX_RETRIES)%Z -> status p <> pending ->
  withinRetries p.
Proof. intros Hle Hst. split; [exact Hle|]. intros H. contradiction. Qed.

Lemma executeScheduledPost_bounded postId :
  keeps retriesBounded (executeScheduledPost postId).
Proof.
  intros w HI. unfold executeScheduledPost. wp_step. wp_step. wp_step.
  apply wp_findByPk.
  destruct (reply 0 _); [|exact HI]. cbn [table emit].
  destruct (find (hasId postId) (table w)) as [found|] eqn:Hfind;
    [|wp_go; exact HI].
  apply find_some in Hfind. destruct Hfind as [Hin _].
  destruct (HI found Hin) as [Hle _].
  wp_step; [wp_go; exact HI|].
  assert (forall q, retryCountOf q = retryCountOf found ->
                    (retryCountOf q <= MAX_RETRIES)%Z) as Hsame
      by (intros q ->; exact Hle).
  repeat first
    [ wp_step
    | apply wp_save;
      lazymatch goal with
      | |- match reply 0 ?w0 with _ => _ end => destruct (reply 0 w0)
      end
    | progress unfold publishPost, accountOf, newScheduledPostError,
        publishFailed, publishAttempt ];
    repeat first
      [ exact HI
      | apply bounded_emit
      | apply bounded_setReplies
      | apply bounded_setClock
      | apply bounded_setDraws
      | apply bounded_upsert;
        [apply settled_within; [apply Hsame; reflexivity|discriminate]|] ].
Qed.

(** The [try] block keeps the bound and throws with the marked post. *)
Lemma executionAttempt_bounded post rc w :
  (retryCountOf post <= MAX_RETRIES)%Z -> retriesBounded w ->
  wp (executionAttempt post rc)
     (fun r w' => retriesBounded w'
                  /\ forall e inst, r = Threw (e, inst) ->
                                    inst = setStatus processing post) w.
Proof.
  intros Hle HI. unfold executionAttempt. wp_step.
  assert (forall w0, retriesBounded w0 ->
            wp (markAndExecute post)
               (fun r w' => retriesBounded w'
                            /\ forall e inst, r = Threw (e, inst) ->
                                              inst = setStatus processing post)
               w0) as Hrest.
  { intros w0 HI0. unfold markAndExecute. wp_step. wp_step. apply wp_save.
    destruct (reply 0 w0).
    - wp_step. wp_step.
      eapply wp_keeps; [apply executeScheduledPost_bounded| |].
      + apply bounded_upsert; [|exact HI0].
        apply settled_within; [exact Hle|discriminate].
      + intros [a|e] w1 HI1; cbv beta iota.
        * wp_step. split; [exact HI1|discriminate].
        * split; [exact HI1|]. intros ? ? [= <- <-]. reflexivity.
    - split; [exact HI0|]. intros ? ? [= <- <-]. reflexivity. }
  unfold backoffBeforeRetry.
  destruct (0 <? rc)%Z; wp_go; apply Hrest; exact HI.
Qed.

Lemma executionFailed_bounded post err :
  (retryCountOf post < MAX_RETRIES)%Z ->
  keeps retriesBounded
    (executionFailed (retryCountOf post) (err, setStatus processing post)).
Proof.
  intros Hlt w HI. unfold executionFailed. cbv zeta.
  destruct (retryCountOf post + 1 <? MAX_RETRIES)%Z eqn:Hbranch.
  - apply Z.ltb_lt in Hbranch.
    wp_go. apply wp_save. destruct (reply 0 _); [|exact HI].
    unfold newScheduledPostError. wp_go.
    apply bounded_emit, bounded_upsert; [|exact HI].
    split; cbn; intros; assumption || lia.
  - apply Z.ltb_ge in Hbranch.
    wp_go. apply wp_save. destruct (reply 0 _); [|exact HI].
    unfold newScheduledPostError. wp_go.
    apply bounded_emit, bounded_upsert; [|exact HI].
    apply settled_within; [cbn; lia|discriminate].
Qed.

Lemma processScheduledPost_bounded post :
  (retryCountOf post < MAX_RETRIES)%Z ->
  keeps retriesBounded (processScheduledPost post).
Proof.
  intros Hlt w HI. unfold processScheduledPost. wp_step. wp_step. wp_step.
  eapply wp_mono; [apply executionAttempt_bounded; [lia|exact HI]|].
  intros [a|[e inst]] w1 [HI1 Hinst]; cbv beta iota; [exact HI1|].
  rewrite (Hinst e inst eq_refl).
  apply executionFailed_bounded; assumption.
Qed.

Lemma processBatch_bounded posts :
  (forall p, In p posts -> (retryCountOf p < MAX_RETRIES)%Z) ->
  keeps retriesBounded (processBatch posts).
Proof.
  unfold processBatch.
  induction posts as [|p rest IH]; intros Hall w HI; cbn [forEach].
  - exact HI.
  - wp_step. wp_step.
    eapply wp_keeps;
      [apply processScheduledPost_bounded, Hall; left; reflexivity|exact HI|].
    intros [[]|e] w1 HI1; cbv beta iota.
    + apply IH; [|exact HI1]. intros q Hq. apply Hall. right. exact Hq.
    + wp_step. apply IH; [|exact HI1].
      intros q Hq. apply Hall. right. exact Hq.
Qed.

(** A post that the batch query selects has retries left. *)
Lemma selected_has_retries_left now w p :
  retriesBounded w ->
  In p (select (dueForProcessing now) batchLimit (table w)) ->
  (retryCountOf p < MAX_RETRIES)%Z.
Proof.
  intros HI Hsel. apply select_In in Hsel. destruct Hsel as [Hin Hdue].
  destruct (HI p Hin) as [_ Hpend].
  unfold dueForProcessing in Hdue. apply andb_prop in Hdue.
  destruct Hdue as [Hst _]. apply orb_prop in Hst. destruct Hst as [Hst|Hst].
  - apply Hpend. destruct (status p); try discriminate. reflexivity.
  - apply andb_prop in Hst. destruct Hst as [_ Hrc].
    unfold retryCountOf, metadataIsNull, storedRetryCountBelow in *.
    destruct (metadata p) as [m|]; [|reflexivity].
    destruct (retryCount m) as [k|]; [|reflexivity].
    apply Z.ltb_lt. exact Hrc.
Qed.

Lemma scheduledPostsTick_bounded : keeps retriesBounded scheduledPostsTick.
Proof.
  intros w HI. unfold scheduledPostsTick. wp_step. wp_step. wp_step.
  wp_step. wp_step. wp_step. apply wp_findAll.
  destruct (reply 0 _) as [payload|msg]; [|wp_step; exact HI].
  wp_step. wp_step.
  eapply (wp_keeps _ _ retriesBounded).
  - apply processBatch_bounded. intros p Hp.
    apply (selected_has_retries_left _ _ p HI Hp).
  - exact HI.
  - intros [[]|e] w1 H1; cbv beta iota; [exact H1|]. wp_step. exact H1.
Qed.

(** X14.  If every stored post has a retry count of at most
    [MAX_RETRIES], and below [MAX_RETRIES] while it is 'pending', this
    still holds after any number of firings of the scheduler: the job never
    stores a retry count above 3, whatever the database and the remote API
    answer. *)
Theorem retries_stay_bounded n : forall w,
  retriesBounded w -> retriesBounded (runSchedule n w).
Proof.
  induction n as [|n IH]; intros w HI; cbn [runSchedule]; [exact HI|].
  apply IH. apply scheduledPostsTick_bounded. exact HI.
Qed.

Lemma retries_stay_bounded_witness :
  retriesBounded
    (runSchedule 2
       (Samples.world [Samples.lastChance; Samples.spent; Samples.early]
          [Succeeds ""; Rejects "db down"])).
Proof.
  apply (retries_stay_bounded 2
           (Samples.world [Samples.lastChance; Samples.spent; Samples.early]
              [Succeeds ""; Rejects "db down"])).
  intros p [<-|[<-|[<-|[]]]];
    (split;
     [ vm_compute; discriminate
     | intros H; first [discriminate H | vm_compute; reflexivity] ]).
Defined.

(** *** Rows that are not due are not touched *)

Section NotDue.

Variable t : ScheduledPost.
Variable ids : list string.
Hypothesis ids_unique : NoDup ids.

Lemma selected_is_another now w p :
  dueForProcessing now t = false ->
  keptAside t ids w ->
  In p (select (dueForProcessing now) batchLimit (table w)) ->
  In (id p) ids /\ id p <> id t.
Proof.
  intros Hnot [Ht Hids] Hsel. apply select_In in Hsel.
  destruct Hsel as [Hp Hdue]. split.
  - rewrite <- Hids. apply in_map, Hp.
  - intros Heq.
    assert (p = t) as ->
        by (apply (ids_injective (table w)); [rewrite Hids| | |];
            assumption).
    rewrite Hnot in Hdue. discriminate.
Qed.

Lemma scheduledPostsTick_keeps_not_due w :
  dueForProcessing (clock w) t = false ->
  keptAside t ids w -> keptAside t ids (snd (scheduledPostsTick w)).
Proof.
  intros Hnot HI.
  change (wp scheduledPostsTick (fun _ w' => keptAside t ids w') w).
  unfold scheduledPostsTick. wp_step. wp_step. wp_step.
  wp_step. wp_step. wp_step. apply wp_findAll.
  destruct (reply 0 _) as [payload|msg]; [|wp_step; exact HI].
  wp_step. wp_step.
  eapply (wp_keeps _ _ (keptAside t ids)).
  - apply (processBatch_keeps (keptAside t ids)
             (fun i => In i ids /\ i <> id t)); try (intros; assumption).
    + intros p w0. apply keptAside_upsert.
    + intros p Hp. apply (selected_is_another _ _ _ Hnot HI Hp).
  - exact HI.
  - intros [[]|e] w1 H1; cbv beta iota; [exact H1|]. wp_step. exact H1.
Qed.

Lemma runSchedule_keeps_never_due n : forall w,
  (forall now, dueForProcessing now t = false) ->
  keptAside t ids w -> keptAside t ids (runSchedule n w).
Proof.
  induction n as [|n IH]; intros w Hnever HI; cbn [runSchedule]; [exact HI|].
  apply IH; [exact Hnever|].
  apply scheduledPostsTick_keeps_not_due; [apply Hnever|exact HI].
Qed.

End NotDue.

(** X15.  A stored post with status 'published' or 'processing' is
    kept as it is by any number of firings of the scheduler (ids being
    unique). *)
Theorem settled_posts_untouched t w n :
  NoDup (map id (table w)) -> In t (table w) ->
  status t = published \/ status t = processing ->
  In t (table (runSchedule n w)).
Proof.
  intros Hnd Hin Hst.
  apply (runSchedule_keeps_never_due t (map id (table w)) Hnd n w).
  - intros now. unfold dueForProcessing.
    destruct Hst as [-> | ->]; reflexivity.
  - split; [exact Hin|reflexivity].
Qed.

Lemma settled_posts_untouched_witness :
  In Samples.done
    (table (runSchedule 3
              (Samples.world [Samples.done; Samples.early] []))).
Proof.
  apply (settled_posts_untouched Samples.done
           (Samples.world [Samples.done; Samples.early] []) 3).
  - repeat constructor; cbn; intuition discriminate.
  - left. reflexivity.
  - left. reflexivity.
Defined.

(** X16.  A firing of the scheduler keeps every stored post that is
    scheduled for later than the time of the firing as it is (ids being
    unique). *)
Theorem future_posts_untouched t w :
  NoDup (map id (table w)) -> In t (table w) ->
  (clock w < scheduledFor t)%Z ->
  In t (table (snd (scheduledPostsTick w))).
Proof.
  intros Hnd Hin Hlater.
  apply (scheduledPostsTick_keeps_not_due t (map id (table w)) Hnd w).
  - unfold dueForProcessing.
    replace (scheduledFor t <=? clock w)%Z with false
      by (symmetry; apply Z.leb_gt; exact Hlater).
    apply andb_false_r.
  - split; [exact Hin|reflexivity].
Qed.

Lemma future_posts_untouched_witness :
  In Samples.tomorrow
    (table (snd (scheduledPostsTick
                   (Samples.world [Samples.early; Samples.tomorrow] [])))).
Proof.
  apply (future_posts_untouched Samples.tomorrow
           (Samples.world [Samples.early; Samples.tomorrow] [])).
  - repeat constructor; cbn; intuition discriminate.
  - right. left. reflexivity.
  - reflexivity.
Defined.

(** *** What a tick processes *)

(** X17.  When the query of a firing succeeds, [processScheduledPost]
    is entered exactly on the posts that the query fetched, in the order of
    the query, and on no other; these are at most 10. *)
Theorem tick_processes_the_batch w :
  succeeds (reply 0 w) = true ->
  attempted (trace (snd (scheduledPostsTick w)))
  = attempted (trace w)
    ++ map id (select (dueForProcessing (clock w)) batchLimit (table w))
  /\ (List.length (select (dueForProcessing (clock w)) batchLimit (table w))
      <= 10)%nat.
Proof.
  intros Hok. split; [|apply firstn_le_length].
  unfold scheduledPostsTick, findAll, query, external, newDate, log,
    tryCatch, bind.
  cbv beta. rewrite reply_emit.
  destruct (reply 0 w) as [payload|msg]; [|discriminate].
  cbn [table clock emit setReplies].
  match goal with
  | |- context [processBatch ?posts ?w0] =>
      destruct (processBatch_attempted posts w0) as (w' & Hrun & Hatt);
      rewrite Hrun
  end.
  cbn [snd]. rewrite Hatt. cbn [trace emit setReplies].
  rewrite !attempted_app. cbn [attempted startedProcessing].
  rewrite !app_nil_r. reflexivity.
Qed.

Lemma tick_processes_the_batch_witness :
  attempted
    (trace (snd (scheduledPostsTick
                   (Samples.world
                      [Samples.done; Samples.late; Samples.tomorrow;
                       Samples.early] []))))
  = attempted
      (trace (Samples.world
                [Samples.done; Samples.late; Samples.tomorrow;
                 Samples.early] []))
    ++ map id
         (select (dueForProcessing 1000) batchLimit
            [Samples.done; Samples.late; Samples.tomorrow; Samples.early])
  /\ (List.length
        (select (dueForProcessing 1000) batchLimit
           [Samples.done; Samples.late; Samples.tomorrow; Samples.early])
      <= 10)%nat.
Proof.
  apply (tick_processes_the_batch
           (Samples.world
              [Samples.done; Samples.late; Samples.tomorrow; Samples.early]
              [])).
  reflexivity.
Defined.

(** X18.  A firing of the scheduler at which no stored post is due
    changes no row, enters [processScheduledPost] on no post, does not
    sleep, and makes one call to the database (the query). *)
Theorem idle_tick_changes_nothing w :
  (forall p, In p (table w) -> dueForProcessing (clock w) p = false) ->
  table (snd (scheduledPostsTick w)) = table w
  /\ attempted (trace (snd (scheduledPostsTick w))) = attempted (trace w)
  /\ sleeps (trace (snd (scheduledPostsTick w))) = sleeps (trace w)
  /\ replies (snd (scheduledPostsTick w)) = tl (replies w).
Proof.
  intros Hidle.
  assert (select (dueForProcessing (clock w)) batchLimit (table w) = [])
    as Hnone.
  { unfold select.
    replace (filter (dueForProcessing (clock w)) (table w)) with
      (@nil ScheduledPost); [reflexivity|].
    symmetry. induction (table w) as [|r rows IH]; [reflexivity|].
    cbn [filter]. rewrite (Hidle r (or_introl eq_refl)).
    apply IH. intros p Hp. apply Hidle. right. exact Hp. }
  unfold scheduledPostsTick, findAll, query, external, newDate, log,
    tryCatch, bind.
  cbv beta. rewrite reply_emit.
  destruct (reply 0 w) as [payload|msg].
  - cbn [table clock emit setReplies]. rewrite Hnone.
    cbn. rewrite !attempted_app. cbn. rewrite !app_nil_r.
    repeat split.
    induction (trace w) as [|e tr IH]; [reflexivity|].
    destruct e; cbn [sleeps app]; rewrite IH; reflexivity.
  - cbn. rewrite !attempted_app. cbn. rewrite !app_nil_r. repeat split.
    induction (trace w) as [|e tr IH]; [reflexivity|].
    destruct e; cbn [sleeps app]; rewrite IH; reflexivity.
Qed.

Lemma idle_tick_changes_nothing_witness :
  table (snd (scheduledPostsTick
                (Samples.world [Samples.done; Samples.tomorrow] [])))
  = table (Samples.world [Samples.done; Samples.tomorrow] []).
Proof.
  apply (idle_tick_changes_nothing
           (Samples.world [Samples.done; Samples.tomorrow] [])).
  intros p [<-|[<-|[]]]; reflexivity.
Defined.

End SchedulerExtras.

(* ================================================================== *)
(** * Startup, HTTP errors and the times of automatic posts             *)
(* ================================================================== *)

Module StartupExtras.

Import Js Async Retry RetryProps Job Startup RetryExtras.
Local Open Scope string_scope.
Local Open Scope list_scope.

Section AnyOperation.

Variable T : Type.
Variable fn : M Thrown T.
Variable maxAttempts : Z.
Variable operationName : string.
Variable baseDelay : Q.

Hypothesis fn_quiet : drawsNothing fn.
Hypothesis fn_one_call : forall w, replies (snd (fn w)) = tl (replies w).

Local Abbreviation loop :=
  (attemptsFrom fn maxAttempts operationName baseDelay).
Local Abbreviation wait :=
  (waitBeforeRetry maxAttempts operationName baseDelay).

Lemma wait_replies attempt w : replies (snd (wait attempt w)) = replies w.
Proof. unfold waitBeforeRetry. destruct (0 <? attempt)%Z; reflexivity. Qed.

(** One iteration of the loop around any operation. *)
Lemma any_unfold remaining attempt lastError w :
  loop (S remaining) attempt lastError w =
  match fn (snd (wait attempt w)) with
  | (Returned v, w1) => (Returned v, w1)
  | (Threw t, w1) =>
      let w2 := emit (Logged Warn [Txt operationName; Txt " attempt ";
                                   Num (attempt + 1); Txt " failed:"]) w1 in
      if rethrows maxAttempts (toError t) attempt
      then (Threw (toError t), w2)
      else loop remaining (attempt + 1)%Z (Some (toError t)) w2
  end.
Proof.
  destruct (wait_effect maxAttempts operationName baseDelay attempt w)
    as (Hr & _).
  cbn [attemptsFrom]. unfold tryCatch at 1. unfold bind at 1.
  destruct (wait attempt w) as [r w0]. cbn [fst snd] in *. subst r.
  destruct (fn w0) as [[v|t] w1]; [reflexivity|].
  unfold bind, log. cbv zeta.
  destruct (rethrows maxAttempts (toError t) attempt); reflexivity.
Qed.

(** The sleeps and the calls of the iterations after the first. *)
Lemma any_later remaining : forall attempt lastError w,
  (0 < attempt)%Z ->
  exists m,
    (m <= remaining)%nat
    /\ sleeps (trace (snd (loop remaining attempt lastError w)))
       = sleeps (trace w)
         ++ map (fun i => Backoff.calculateExponentialBackoff
                            (nth i (draws w) 0%Q) (attempt - 1 + Z.of_nat i)
                            baseDelay Backoff.defaultMaxDelay)
              (seq 0 m)
    /\ replies (snd (loop remaining attempt lastError w))
       = skipn m (replies w).
Proof.
  induction remaining as [|r IH]; intros attempt lastError w Hpos.
  - exists 0%nat. cbn. rewrite app_nil_r. repeat split; lia.
  - rewrite any_unfold.
    destruct (wait_effect maxAttempts operationName baseDelay attempt w)
      as (_ & _ & Hd & Hs).
    pose proof (wait_replies attempt w) as Hrep.
    pose proof Hpos as Hposb. apply Z.ltb_lt in Hposb.
    rewrite Hposb in Hd, Hs.
    assert (forall (l : list Q), hd 0%Q l = nth 0 l 0%Q) as Hhd
        by (intros [|? ?]; reflexivity).
    destruct (fn_quiet (snd (wait attempt w))) as [Hqd Hqs].
    pose proof (fn_one_call (snd (wait attempt w))) as Hone.
    destruct (fn (snd (wait attempt w))) as [[v|t] w1]; cbn [snd] in *.
    { exists 1%nat. cbn [snd seq map]. rewrite Hqs, Hs, Hone, Hrep.
      rewrite Z.add_0_r, Hhd. repeat split; try lia;
        try (destruct (replies w); reflexivity). }
    cbv zeta. destruct (rethrows maxAttempts (toError t) attempt).
    { exists 1%nat. cbn [snd seq map trace emit replies].
      rewrite sleeps_app, Hqs, Hs, Hone, Hrep. cbn [sleeps].
      rewrite app_nil_r, Z.add_0_r, Hhd. repeat split; try lia;
        try (destruct (replies w); reflexivity). }
    match goal with |- context [loop r ?a ?l ?w2] =>
      destruct (IH a l w2 ltac:(lia)) as (m & Hm & Hsl & Hrp);
      assert (draws w2 = tl (draws w)) as Hd2
          by (cbn [draws emit]; rewrite Hqd; exact Hd);
      assert (replies w2 = tl (replies w)) as Hr2
          by (cbn [replies emit]; rewrite Hone; exact (f_equal _ Hrep));
      assert (sleeps (trace w2)
              = sleeps (trace w)
                ++ [Backoff.calculateExponentialBackoff (hd 0%Q (draws w))
                      (attempt - 1) baseDelay Backoff.defaultMaxDelay])
        as Hs2
          by (cbn [trace emit]; rewrite sleeps_app, Hqs, Hs;
              cbn [sleeps]; apply app_nil_r);
      set (out := loop r a l w2) in *
    end.
    exists (S m). split; [lia|]. split.
    + rewrite Hsl, Hs2, Hd2. cbn [seq map]. rewrite <- app_assoc.
      cbn [app]. f_equal. f_equal.
      * rewrite Z.add_0_r, Hhd. reflexivity.
      * rewrite <- seq_shift, map_map. apply map_ext. intros i.
        f_equal; [destruct (draws w); [destruct i|]; reflexivity|lia].
    + rewrite Hrp, Hr2. destruct (replies w); [destruct m|]; reflexivity.
Qed.

(** The sleeps and the calls of a whole run: one sleep less than calls. *)
Lemma any_run w :
  (1 <= maxAttempts)%Z ->
  let out := retryWithBackoff fn maxAttempts operationName baseDelay w in
  exists m,
    (m < Z.to_nat maxAttempts)%nat
    /\ sleeps (trace (snd out))
       = sleeps (trace w)
         ++ map (fun i => Backoff.calculateExponentialBackoff
                            (nth i (draws w) 0%Q) (Z.of_nat i)
                            baseDelay Backoff.defaultMaxDelay)
              (seq 0 m)
    /\ replies (snd out) = skipn (S m) (replies w).
Proof.
  intros Hn. cbv zeta. unfold retryWithBackoff.
  destruct (Z.to_nat maxAttempts) as [|r] eqn:Hr; [lia|].
  rewrite any_unfold.
  destruct (wait_effect maxAttempts operationName baseDelay 0%Z w)
    as (_ & _ & Hd & Hs).
  pose proof (wait_replies 0%Z w) as Hrep.
  cbn [Z.ltb Z.compare] in Hd, Hs. rewrite app_nil_r in Hs.
  destruct (fn_quiet (snd (wait 0%Z w))) as [Hqd Hqs].
  pose proof (fn_one_call (snd (wait 0%Z w))) as Hone.
  destruct (fn (snd (wait 0%Z w))) as [[v|t] w1]; cbn [snd] in *.
  { exists 0%nat. cbn [snd seq map]. rewrite Hqs, Hs, Hone, Hrep.
    rewrite app_nil_r. repeat split; try lia;
      try (destruct (replies w); reflexivity). }
  cbv zeta. destruct (rethrows maxAttempts (toError t) 0).
  { exists 0%nat. cbn [snd seq map trace emit replies].
    rewrite sleeps_app, Hqs, Hs, Hone, Hrep. cbn [sleeps].
    rewrite !app_nil_r. repeat split; try lia;
      try (destruct (replies w); reflexivity). }
  match goal with |- context [loop r ?a ?l ?w2] =>
    destruct (any_later r a l w2 ltac:(lia)) as (m & Hm & Hsl & Hrp);
    assert (draws w2 = draws w) as Hd2
        by (cbn [draws emit]; rewrite Hqd; exact Hd);
    assert (replies w2 = tl (replies w)) as Hr2
        by (cbn [replies emit]; rewrite Hone; exact (f_equal _ Hrep));
    assert (sleeps (trace w2) = sleeps (trace w)) as Hs2
        by (cbn [trace emit]; rewrite sleeps_app, Hqs, Hs;
            cbn [sleeps]; apply app_nil_r);
    set (out := loop r a l w2) in *
  end.
  exists m. split; [lia|]. split.
  - rewrite Hsl, Hs2, Hd2. reflexivity.
  - rewrite Hrp, Hr2. destruct (replies w); [destruct m|]; reflexivity.
Qed.

(** An operation whose outcome is decided by the reply to its call. *)
Variable outcome : Reply -> Result Thrown T.
Hypothesis fn_outcome : forall w, fst (fn w) = outcome (reply 0 w).

Lemma reply_skipn k i w w' :
  replies w' = skipn k (replies w) -> reply i w' = reply (k + i) w.
Proof.
  unfold reply. intros ->. generalize (replies w). clear.
  induction k as [|k IH]; intros l; [reflexivity|].
  destruct l as [|x l]; [destruct i; reflexivity|]. apply IH.
Qed.

(** Failures that are retried, one after the other. *)
Lemma any_skip k : forall remaining attempt lastError w,
  (forall i, (i < k)%nat ->
     exists t, outcome (reply i w) = Threw t
               /\ rethrows maxAttempts (toError t) (attempt + Z.of_nat i)
                  = false) ->
  exists w' lastError',
    loop (k + remaining) attempt lastError w
    = loop remaining (attempt + Z.of_nat k)%Z lastError' w'
    /\ replies w' = skipn k (replies w).
Proof.
  induction k as [|k IH]; intros remaining attempt lastError w Hfail.
  - exists w, lastError. rewrite Z.add_0_r. split; reflexivity.
  - cbn [Nat.add]. rewrite any_unfold.
    pose proof (wait_replies attempt w) as Hrep.
    pose proof (fn_outcome (snd (wait attempt w))) as Hout.
    pose proof (fn_one_call (snd (wait attempt w))) as Hone.
    rewrite (reply_skipn 0 0 w _ Hrep) in Hout. cbn [Nat.add] in Hout.
    destruct (Hfail 0%nat ltac:(lia)) as (t & Ht & Hre).
    rewrite Ht in Hout. rewrite Z.add_0_r in Hre.
    destruct (fn (snd (wait attempt w))) as [r w1]. cbn [fst snd] in *.
    subst r. cbv zeta. rewrite Hre.
    match goal with |- context [loop _ ?a ?l ?w2] =>
      assert (replies w2 = skipn 1 (replies w)) as Hr2
        by (cbn [replies emit]; rewrite Hone, Hrep;
            destruct (replies w); reflexivity);
      destruct (IH remaining a l w2) as (w' & last' & Hrun & Hrp)
    end.
    { intros i Hi. destruct (Hfail (S i) ltac:(lia)) as (ti & Hti & Hrei).
      exists ti. rewrite (reply_skipn 1 i w _ Hr2). split; [exact Hti|].
      rewrite <- Hrei. f_equal. lia. }
    exists w', last'. split.
    + rewrite Hrun. f_equal. lia.
    + rewrite Hrp, Hr2. destruct (replies w); [destruct k|]; reflexivity.
Qed.

End AnyOperation.

(** The two operations of the startup. *)
Lemma dependencyCall_effect w :
  draws (snd (dependencyCall w)) = draws w
  /\ trace (snd (dependencyCall w)) = trace w
  /\ replies (snd (dependencyCall w)) = tl (replies w).
Proof.
  unfold dependencyCall, external, bind. cbv beta.
  destruct (reply 0 w); repeat split.
Qed.

Lemma database_operation :
  let fn := bind (E:=Thrown) dependencyCall
              (fun _ => log Info [Txt "Database connection successful"]) in
  drawsNothing fn /\ forall w, replies (snd (fn w)) = tl (replies w).
Proof.
  cbv zeta. split; [intros w; split|intros w];
    unfold dependencyCall, external, bind, log; cbv beta;
    destruct (reply 0 w); cbn; try reflexivity;
    rewrite sleeps_app; cbn; apply app_nil_r.
Qed.

Lemma redis_operation :
  let fn := bind (E:=Thrown) connectRedis
              (fun _ => log Info [Txt "Redis connection successful"]) in
  drawsNothing fn /\ forall w, replies (snd (fn w)) = tl (replies w).
Proof.
  cbv zeta. split; [intros w; split|intros w];
    unfold connectRedis, dependencyCall, external, tryCatch, bind, log,
      throw;
    cbv beta; destruct (reply 0 w); cbn; try reflexivity;
    rewrite sleeps_app; cbn; apply app_nil_r.
Qed.

(** The sum of at most four backoff delays. *)
Lemma backoff_le r i base :
  Backoff.unitDraw r -> (0 <= base)%Q ->
  (Backoff.calculateExponentialBackoff r (Z.of_nat i) base
     Backoff.defaultMaxDelay
   <= (11 # 10) * (base * 2 ^ Z.of_nat i))%Q.
Proof.
  intros Hr Hbase.
  assert (0 <= Backoff.defaultMaxDelay)%Q as Hmax by discriminate.
  pose proof (BackoffProps.cappedDelay_nonneg (Z.of_nat i) _ _ Hbase Hmax)
    as Hc.
  assert (Backoff.cappedDelay (Z.of_nat i) base Backoff.defaultMaxDelay
          <= base * 2 ^ Z.of_nat i)%Q as Hle by apply Q.le_min_l.
  destruct (BackoffProps.jitter_bounds _ _ Hr Hc) as [J0 J1].
  unfold Backoff.calculateExponentialBackoff. cbv zeta. lra.
Qed.

Lemma four_delays_le (dr : list Q) base m :
  Forall Backoff.unitDraw dr -> (0 <= base)%Q -> (m <= 4)%nat ->
  (total (map (fun i => Backoff.calculateExponentialBackoff
                          (nth i dr 0%Q) (Z.of_nat i) base
                          Backoff.defaultMaxDelay) (seq 0 m))
   <= (33 # 2) * base)%Q
  /\ List.length (map (fun i => Backoff.calculateExponentialBackoff
                          (nth i dr 0%Q) (Z.of_nat i) base
                          Backoff.defaultMaxDelay) (seq 0 m)) = m.
Proof.
  intros Hdr Hbase Hm. split; [|rewrite length_map, length_seq; reflexivity].
  pose proof (backoff_le _ 0 base (nth_unitDraw 0 dr Hdr) Hbase) as H0.
  pose proof (backoff_le _ 1 base (nth_unitDraw 1 dr Hdr) Hbase) as H1.
  pose proof (backoff_le _ 2 base (nth_unitDraw 2 dr Hdr) Hbase) as H2.
  pose proof (backoff_le _ 3 base (nth_unitDraw 3 dr Hdr) Hbase) as H3.
  change (2 ^ Z.of_nat 0)%Q with 1%Q in H0.
  change (2 ^ Z.of_nat 1)%Q with 2%Q in H1.
  change (2 ^ Z.of_nat 2)%Q with (2 * 2)%Q in H2.
  change (2 ^ Z.of_nat 3)%Q with (2 * 2 * 2)%Q in H3.
  destruct m as [|[|[|[|[|m]]]]]; [| | | | |lia];
    cbn [seq map total fold_right]; lra.
Qed.

Lemma budget T (fn : M Thrown T) name base w :
  drawsNothing fn -> (forall w0, replies (snd (fn w0)) = tl (replies w0)) ->
  Forall Backoff.unitDraw (draws w) -> (0 <= base)%Q ->
  exists delays,
    sleeps (trace (snd (retryWithBackoff fn 5 name base w)))
    = sleeps (trace w) ++ delays
    /\ (List.length delays <= 4)%nat
    /\ (total delays <= (33 # 2) * base)%Q
    /\ replies (snd (retryWithBackoff fn 5 name base w))
       = skipn (S (List.length delays)) (replies w).
Proof.
  intros Hquiet Hone Hdraws Hbase.
  destruct (any_run T fn 5 name base Hquiet Hone w ltac:(lia))
    as (m & Hm & Hsl & Hrp).
  change (Z.to_nat 5) with 5%nat in Hm.
  destruct (four_delays_le (draws w) base m Hdraws Hbase ltac:(lia))
    as [Htotal Hlen].
  eexists. split; [exact Hsl|]. rewrite Hlen.
  split; [lia|]. split; [exact Htotal|exact Hrp].
Qed.

(** X19.  [connectDatabaseWithRetry] calls the database at most five
    times and sleeps between two calls only: with draws of [Math.random]
    in [0, 1) it sleeps at most four times, for at most 33000 ms in
    total, whatever the database answers. *)
Theorem database_connection_budget w :
  Forall Backoff.unitDraw (draws w) ->
  exists delays,
    sleeps (trace (snd (connectDatabaseWithRetry w)))
    = sleeps (trace w) ++ delays
    /\ (List.length delays <= 4)%nat
    /\ (total delays <= 33000)%Q
    /\ replies (snd (connectDatabaseWithRetry w))
       = skipn (S (List.length delays)) (replies w).
Proof.
  intros Hdraws. destruct database_operation as [Hquiet Hone].
  destruct (budget unit _ "Database connection" 2000%Q w Hquiet Hone Hdraws
              ltac:(discriminate))
    as (delays & Hsl & Hlen & Htotal & Hrp).
  exists delays. repeat split; try assumption.
  eapply Qle_trans; [exact Htotal|]. discriminate.
Qed.

Lemma database_connection_budget_witness :
  exists delays,
    sleeps (trace (snd (connectDatabaseWithRetry
                          (Samples.world []
                             [Rejects "connect ECONNREFUSED";
                              Rejects "connect ECONNREFUSED"]))))
    = sleeps (trace (Samples.world []
                       [Rejects "connect ECONNREFUSED";
                        Rejects "connect ECONNREFUSED"]))
      ++ delays
    /\ (List.length delays <= 4)%nat
    /\ (total delays <= 33000)%Q
    /\ replies (snd (connectDatabaseWithRetry
                       (Samples.world []
                          [Rejects "connect ECONNREFUSED";
                           Rejects "connect ECONNREFUSED"])))
       = skipn (S (List.length delays))
           (replies (Samples.world []
                       [Rejects "connect ECONNREFUSED";
                        Rejects "connect ECONNREFUSED"])).
Proof.
  apply (database_connection_budget
           (Samples.world []
              [Rejects "connect ECONNREFUSED";
               Rejects "connect ECONNREFUSED"])).
  repeat constructor; discriminate.
Defined.

(** X20.  [connectRedisWithRetry] pings Redis at most five times and
    sleeps between two pings only: with draws of [Math.random] in [0, 1)
    it sleeps at most four times, for at most 16500 ms in total, whatever
    Redis answers. *)
Theorem redis_connection_budget w :
  Forall Backoff.unitDraw (draws w) ->
  exists delays,
    sleeps (trace (snd (connectRedisWithRetry w)))
    = sleeps (trace w) ++ delays
    /\ (List.length delays <= 4)%nat
    /\ (total delays <= 16500)%Q
    /\ replies (snd (connectRedisWithRetry w))
       = skipn (S (List.length delays)) (replies w).
Proof.
  intros Hdraws. destruct redis_operation as [Hquiet Hone].
  destruct (budget unit _ "Redis connection" 1000%Q w Hquiet Hone Hdraws
              ltac:(discriminate))
    as (delays & Hsl & Hlen & Htotal & Hrp).
  exists delays. repeat split; try assumption.
  eapply Qle_trans; [exact Htotal|]. discriminate.
Qed.

Lemma redis_connection_budget_witness :
  exists delays,
    sleeps (trace (snd (connectRedisWithRetry
                          (Samples.world []
                             [Rejects "Connection is closed."]))))
    = sleeps (trace (Samples.world [] [Rejects "Connection is closed."]))
      ++ delays
    /\ (List.length delays <= 4)%nat
    /\ (total delays <= 16500)%Q
    /\ replies (snd (connectRedisWithRetry
                       (Samples.world [] [Rejects "Connection is closed."])))
       = skipn (S (List.length delays))
           (replies (Samples.world [] [Rejects "Connection is closed."])).
Proof.
  apply (redis_connection_budget
           (Samples.world [] [Rejects "Connection is closed."])).
  repeat constructor; discriminate.
Defined.

Lemma tl_skipn A k : forall l : list A, tl (skipn k l) = skipn (S k) l.
Proof.
  induction k as [|k IH]; intros [|x l]; try reflexivity.
  change (tl (skipn k l) = skipn (S k) l). apply IH.
Qed.

Lemma database_attempt w :
  bind (E:=Thrown) dependencyCall
    (fun _ => log Info [Txt "Database connection successful"]) w
  = match reply 0 w with
    | Succeeds _ =>
        (Returned tt,
         emit (Logged Info [Txt "Database connection successful"])
           (setReplies (tl (replies w)) w))
    | Rejects msg =>
        (Threw (ThrownError (newError msg)), setReplies (tl (replies w)) w)
    end.
Proof.
  unfold dependencyCall, external, bind, log. cbv beta.
  destruct (reply 0 w); reflexivity.
Qed.

Lemma database_connects_run k w :
  (k < 5)%nat ->
  (forall i, (i < k)%nat ->
     exists msg, reply i w = Rejects msg
                 /\ includes "ENOTFOUND" msg = false) ->
  succeeds (reply k w) = true ->
  fst (connectDatabaseWithRetry w) = Returned tt
  /\ replies (snd (connectDatabaseWithRetry w)) = skipn (S k) (replies w)
  /\ exists earlier,
       trace (snd (connectDatabaseWithRetry w))
       = earlier ++ [Logged Info [Txt "Database connection successful"]].
Proof.
  intros Hk Hfail Hok. destruct database_operation as [_ Hone].
  unfold connectDatabaseWithRetry, retryWithBackoff.
  change (Z.to_nat 5) with 5%nat.
  replace 5%nat with (k + S (4 - k))%nat by lia.
  edestruct (any_skip unit _ 5 "Database connection" 2000%Q Hone
               attemptOutcome) with (k := k) (w := w)
    as (w' & last' & Hrun & Hrp).
  { intros w0. rewrite database_attempt.
    destruct (reply 0 w0); reflexivity. }
  { intros i Hi. destruct (Hfail i Hi) as (msg & Hmsg & Hnf).
    exists (ThrownError (newError msg)). rewrite Hmsg.
    split; [reflexivity|]. unfold rethrows. cbn [toError message newError].
    rewrite Hnf.
    replace (0 + Z.of_nat i =? 5 - 1)%Z with false
      by (symmetry; apply Z.eqb_neq; lia).
    rewrite andb_false_r. reflexivity. }
  rewrite Hrun, any_unfold.
  pose proof (wait_replies 5 "Database connection" 2000%Q
                (0 + Z.of_nat k) w') as Hrep.
  rewrite database_attempt.
  rewrite (reply_skipn k 0 w _ (eq_trans Hrep Hrp)), Nat.add_0_r.
  destruct (reply k w) as [payload|msg]; [|discriminate].
  cbn [fst snd replies emit setReplies trace]. split; [reflexivity|].
  split; [|eexists; reflexivity].
  rewrite Hrep, Hrp. apply tl_skipn.
Qed.

(** X21.  [connectDatabaseWithRetry] returns normally when the database
    answers one of the first five calls and every rejection before that
    answer has a message without 'ENOTFOUND' (refused connections
    included): it then makes no further call, and its last log line is
    'Database connection successful'. *)
Theorem database_connects k w :
  (k < 5)%nat ->
  (forall i, (i < k)%nat ->
     exists msg, reply i w = Rejects msg
                 /\ includes "ENOTFOUND" msg = false) ->
  succeeds (reply k w) = true ->
  fst (connectDatabaseWithRetry w) = Returned tt
  /\ replies (snd (connectDatabaseWithRetry w)) = skipn (S k) (replies w)
  /\ exists earlier,
       trace (snd (connectDatabaseWithRetry w))
       = earlier ++ [Logged Info [Txt "Database connection successful"]].
Proof. apply database_connects_run. Qed.

Lemma database_connects_witness :
  fst (connectDatabaseWithRetry
         (Samples.world []
            [Rejects "connect ECONNREFUSED 127.0.0.1:5432";
             Rejects "connect ECONNREFUSED 127.0.0.1:5432"]))
  = Returned tt
  /\ replies (snd (connectDatabaseWithRetry
                     (Samples.world []
                        [Rejects "connect ECONNREFUSED 127.0.0.1:5432";
                         Rejects "connect ECONNREFUSED 127.0.0.1:5432"])))
     = skipn 3
         (replies (Samples.world []
                     [Rejects "connect ECONNREFUSED 127.0.0.1:5432";
                      Rejects "connect ECONNREFUSED 127.0.0.1:5432"]))
  /\ exists earlier,
       trace (snd (connectDatabaseWithRetry
                     (Samples.world []
                        [Rejects "connect ECONNREFUSED 127.0.0.1:5432";
                         Rejects "connect ECONNREFUSED 127.0.0.1:5432"])))
       = earlier ++ [Logged Info [Txt "Database connection successful"]].
Proof.
  apply (database_connects 2
           (Samples.world []
              [Rejects "connect ECONNREFUSED 127.0.0.1:5432";
               Rejects "connect ECONNREFUSED 127.0.0.1:5432"])).
  - lia.
  - intros [|[|i]] Hi; [eexists; split; reflexivity ..|lia].
  - reflexivity.
Defined.

End StartupExtras.

Module HttpExtras.

Import Js Http.
Local Open Scope string_scope.
Local Open Scope list_scope.
Local Open Scope Z_scope.

(** The error that the handler answers with, when the error it received is
    not one of the application's own. *)
Lemma handled_foreign env error :
  (forall e, origin error <> Custom e) ->
  In (text (handled env error), statusCode (handled env error),
      errorCode (handled env error), isOperational (handled env error))
    [("Database validation error", 400, Some "VALIDATION_ERROR", true);
     ("Invalid token", 401, Some "INVALID_TOKEN", true);
     ("Token expired", 401, Some "TOKEN_EXPIRED", true);
     ("Too many requests", 429, Some "RATE_LIMIT_EXCEEDED", true);
     ("Invalid JSON payload", 400, Some "VALIDATION_ERROR", true);
     (if isEnv env "production" then "Internal server error"
      else orText (messageOf error) "Internal server error",
      500, Some "SERVER_ERROR", false)].
Proof.
  intros Hforeign. unfold handled.
  destruct (origin error) as [m|m|e|m|m] eqn:Ho;
    try (left; reflexivity);
    try (exfalso; exact (Hforeign e eq_refl));
    (destruct (name error =? "JsonWebTokenError")%string;
       [right; left; reflexivity|];
     destruct (name error =? "TokenExpiredError")%string;
       [right; right; left; reflexivity|];
     destruct (isNumber (statusOf error) 429
               || messageIncludes "Too many requests" (messageOf error))%bool;
       [right; right; right; left; reflexivity|]).
  - destruct (includes "JSON" m);
      [right; right; right; right; left; reflexivity|].
    do 5 right. left. reflexivity.
  - do 5 right. left. reflexivity.
Qed.

(** X22.  With [NODE_ENV] set to 'production', for an error that is not
    one of the application's own ([BaseError]) the response of
    [errorHandler] carries one of the handler's six fixed texts as its
    message, its status is 400, 401, 429 or 500, and it has no
    [originalError]. *)
Theorem production_hides_foreign_errors error :
  (forall e, origin error <> Custom e) ->
  In (bodyMessage (errorHandler (Some "production") error)) handlerTexts
  /\ In (sentStatus (errorHandler (Some "production") error))
        [400; 401; 429; 500]
  /\ bodyOriginalError (errorHandler (Some "production") error) = None.
Proof.
  intros Hforeign.
  pose proof (handled_foreign (Some "production") error Hforeign) as H.
  unfold errorHandler, handlerTexts. cbn [bodyMessage sentStatus
    bodyOriginalError].
  change (isEnv (Some "production") "production") with true in *.
  change (isEnv (Some "production") "development") with false.
  cbn [andb].
  repeat (destruct H as [H|H];
          [injection H as Ht Hs Hc Hop; rewrite <- Ht, <- Hs, <- Hop;
           cbn; intuition auto|]).
  destruct H.
Qed.

Lemma production_hides_foreign_errors_witness :
  In (bodyMessage
        (errorHandler (Some "production")
           {| origin := Elsewhere (Some "connect ECONNREFUSED 10.0.0.5:5432");
              name := "SequelizeConnectionRefusedError";
              rawStatus := None |}))
     handlerTexts
  /\ In (sentStatus
           (errorHandler (Some "production")
              {| origin :=
                   Elsewhere (Some "connect ECONNREFUSED 10.0.0.5:5432");
                 name := "SequelizeConnectionRefusedError";
                 rawStatus := None |}))
        [400; 401; 429; 500]
  /\ bodyOriginalError
       (errorHandler (Some "production")
          {| origin := Elsewhere (Some "connect ECONNREFUSED 10.0.0.5:5432");
             name := "SequelizeConnectionRefusedError";
             rawStatus := None |})
     = None.
Proof.
  apply (production_hides_foreign_errors
           {| origin := Elsewhere (Some "connect ECONNREFUSED 10.0.0.5:5432");
              name := "SequelizeConnectionRefusedError";
              rawStatus := None |}).
  intros e. discriminate.
Defined.

(** X23.  [errorHandler] answers an operational [BaseError] with the
    error's own status, message and code, in every environment. *)
Theorem operational_errors_pass_through env e nm st :
  isOperational e = true ->
  let response :=
    errorHandler env {| origin := Custom e; name := nm; rawStatus := st |} in
  sentStatus response = statusCode e
  /\ bodyStatus response = statusCode e
  /\ bodyMessage response = text e
  /\ bodyCode response = errorCode e.
Proof.
  intros Hop. cbv zeta. unfold errorHandler, handled.
  cbn [origin sentStatus bodyStatus bodyMessage bodyCode].
  rewrite Hop. cbn [negb]. rewrite andb_false_r. repeat split.
Qed.

Lemma operational_errors_pass_through_witness :
  sentStatus
    (errorHandler (Some "production")
       {| origin := Custom (newNotFoundError "Post");
          name := "Error"; rawStatus := None |})
  = statusCode (newNotFoundError "Post")
  /\ bodyStatus
       (errorHandler (Some "production")
          {| origin := Custom (newNotFoundError "Post");
             name := "Error"; rawStatus := None |})
     = statusCode (newNotFoundError "Post")
  /\ bodyMessage
       (errorHandler (Some "production")
          {| origin := Custom (newNotFoundError "Post");
             name := "Error"; rawStatus := None |})
     = text (newNotFoundError "Post")
  /\ bodyCode
       (errorHandler (Some "production")
          {| origin := Custom (newNotFoundError "Post");
             name := "Error"; rawStatus := None |})
     = errorCode (newNotFoundError "Post").
Proof.
  apply (operational_errors_pass_through (Some "production")
           (newNotFoundError "Post") "Error" None).
  reflexivity.
Defined.

(** The status of a [FacebookAPIError]. *)
Lemma newFacebookAPIError_status msg status :
  statusCode (newFacebookAPIError msg status)
  = if includes "token" msg then 401
    else match status with
         | Some 0 | None => 502
         | Some k => k
         end.
Proof.
  unfold newFacebookAPIError, newExternalServiceError, newBaseError.
  cbn [statusCode]. cbv zeta.
  destruct (includes "token" msg);
    [rewrite orb_true_r; reflexivity|rewrite orb_false_r].
  destruct status as [k|]; [|reflexivity].
  unfold isNumber, truthyNumber.
  destruct (k =? 401) eqn:H1; [apply Z.eqb_eq in H1; subst k; reflexivity|].
  destruct (k =? 403) eqn:H3; [apply Z.eqb_eq in H3; subst k; reflexivity|].
  destruct (k =? 429) eqn:H9; [apply Z.eqb_eq in H9; subst k; reflexivity|].
  destruct k; reflexivity.
Qed.

(** X24.  The status of a [FacebookAPIError]: 401 whenever the message
    contains 'token', whatever status was passed (403 and 429 included);
    otherwise the status passed, and 502 when none (or 0) was passed.  The
    error is operational and its code is 'FACEBOOK_ERROR'. *)
Theorem facebook_error_status msg status :
  statusCode (newFacebookAPIError msg status)
  = (if includes "token" msg then 401
     else match status with
          | Some 0 | None => 502
          | Some k => k
          end)
  /\ errorCode (newFacebookAPIError msg status) = Some "FACEBOOK_ERROR"
  /\ isOperational (newFacebookAPIError msg status) = true.
Proof.
  split; [apply newFacebookAPIError_status|split; reflexivity].
Qed.

(** What a failed request to the Graph API turns into. *)
Lemma requestFailed_cases f :
  let e := requestFailed f in
  class e = CFacebookAPI /\ isOperational e = true
  /\ errorCode e = Some "FACEBOOK_ERROR"
  /\ (statusCode e = 401 \/ statusCode e = 403 \/ statusCode e = 429
      \/ statusCode e = 504 \/ statusCode e = 500
      \/ httpStatus f = Some (statusCode e)).
Proof.
  cbv zeta. unfold requestFailed. cbv zeta.
  destruct (isNumber (httpStatus f) 401
            || includes "expired" (orText (graphMessage f) (failureMessage f))
            || includes "invalid"
                 (orText (graphMessage f) (failureMessage f)))%bool;
    [repeat split; left; reflexivity|].
  destruct (isNumber (httpStatus f) 403);
    [repeat split; right; left; reflexivity|].
  destruct (isNumber (httpStatus f) 429);
    [repeat split; right; right; left; reflexivity|].
  destruct (isCode (clientCode f) "ECONNABORTED"
            || isCode (clientCode f) "ETIMEDOUT")%bool;
    [repeat split; right; right; right; left; reflexivity|].
  repeat split.
  rewrite newFacebookAPIError_status.
  destruct (includes "token"
              ("Facebook API error: "
               ++ orText (graphMessage f) (failureMessage f)));
    [left; reflexivity|].
  destruct (httpStatus f) as [k|]; cbn.
  - destruct k; cbn; auto 10.
  - auto 10.
Qed.

(** X25.  A request to the Graph API that fails in [makeRequest], once
    it reaches [errorHandler]: the response carries the message of the
    [FacebookAPIError] as it is (in production too), the code
    'FACEBOOK_ERROR', and the status 401, 403, 429, 504, 500 or the HTTP
    status that Facebook returned. *)
Theorem request_failure_response env f nm st :
  let e := requestFailed f in
  let response :=
    errorHandler env {| origin := Custom e; name := nm; rawStatus := st |} in
  bodyMessage response = text e
  /\ bodyCode response = Some "FACEBOOK_ERROR"
  /\ sentStatus response = statusCode e
  /\ (sentStatus response = 401 \/ sentStatus response = 403
      \/ sentStatus response = 429 \/ sentStatus response = 504
      \/ sentStatus response = 500
      \/ httpStatus f = Some (sentStatus response)).
Proof.
  cbv zeta.
  destruct (requestFailed_cases f) as (_ & Hop & Hcode & Hst).
  unfold errorHandler, handled.
  cbn [origin sentStatus bodyStatus bodyMessage bodyCode].
  rewrite Hop, Hcode. cbn [negb]. rewrite andb_false_r.
  repeat split. exact Hst.
Qed.

End HttpExtras.

Module PlannerExtras.

Import Planner.
Local Open Scope Z_scope.

Lemma slot (hours : list Z) offset zone now :
  hours <> [] ->
  calculateNextPostTime zone hours offset now
  = Some (startOfDay zone now
          + (Z.of_nat offset / Z.of_nat (List.length hours)) * dayMs
          + nth (Z.to_nat (Z.of_nat offset mod Z.of_nat (List.length hours)))
              hours 0 * hourMs).
Proof. destruct hours; [contradiction|reflexivity]. Qed.

Lemma slot_index (hours : list Z) offset :
  hours <> [] ->
  (Z.to_nat (Z.of_nat offset mod Z.of_nat (List.length hours))
   < List.length hours)%nat.
Proof.
  intros Hne. assert (0 < Z.of_nat (List.length hours)) as Hlen
      by (destruct hours; [contradiction|cbn [List.length]; lia]).
  pose proof (Z.mod_pos_bound (Z.of_nat offset) _ Hlen). lia.
Qed.

Lemma slots_increase zone hours now i j ti tj :
  increasingHours hours -> (i < j)%nat ->
  calculateNextPostTime zone hours i now = Some ti ->
  calculateNextPostTime zone hours j now = Some tj ->
  ti < tj.
Proof.
  intros [Hrange Hsorted] Hij Hi Hj.
  assert (hours <> []) as Hne by (intros ->; discriminate).
  rewrite (slot hours _ zone now Hne) in Hi.
  rewrite (slot hours _ zone now Hne) in Hj.
  injection Hi as <-. injection Hj as <-.
  pose proof (slot_index hours i Hne) as Hri.
  pose proof (slot_index hours j Hne) as Hrj.
  set (len := Z.of_nat (List.length hours)) in *.
  assert (0 < len) as Hlen by (subst len; lia).
  pose proof (Z.div_mod (Z.of_nat i) len ltac:(lia)) as Ei.
  pose proof (Z.div_mod (Z.of_nat j) len ltac:(lia)) as Ej.
  pose proof (Z.mod_pos_bound (Z.of_nat i) len Hlen) as Bi.
  pose proof (Z.mod_pos_bound (Z.of_nat j) len Hlen) as Bj.
  set (qi := Z.of_nat i / len) in *. set (qj := Z.of_nat j / len) in *.
  set (ri := Z.of_nat i mod len) in *. set (rj := Z.of_nat j mod len) in *.
  pose proof (Hrange _ (nth_In hours 0 Hri)) as Hhi.
  pose proof (Hrange _ (nth_In hours 0 Hrj)) as Hhj.
  assert (qi <= qj) as Hq by nia.
  unfold dayMs, hourMs.
  destruct (Z.eq_dec qi qj) as [Heq|Hneq].
  - assert (ri < rj) as Hr by nia.
    pose proof (Hsorted (Z.to_nat ri) (Z.to_nat rj) ltac:(lia)) as Hlt.
    rewrite Heq. lia.
  - assert (qi + 1 <= qj) as Hq1 by lia. nia.
Qed.

(** X26.  For preferred hours of a day given in increasing order,
    [calculateNextPostTime] gives a strictly later time for a larger
    offset: the posts of one scheduling run get distinct, increasing
    times. *)
Theorem next_post_times_increase zone hours now i j ti tj :
  increasingHours hours -> (i < j)%nat ->
  calculateNextPostTime zone hours i now = Some ti ->
  calculateNextPostTime zone hours j now = Some tj ->
  ti < tj.
Proof. apply slots_increase. Qed.

Lemma defaultPreferredHours_increasing : increasingHours defaultPreferredHours.
Proof.
  split.
  - intros h [<-|[<-|[<-|[]]]]; lia.
  - intros a b Hab. cbn [List.length defaultPreferredHours] in Hab.
    destruct a as [|[|[|a]]], b as [|[|[|b]]]; cbn; lia.
Qed.

Lemma next_post_times_increase_witness :
  1000 - 1000 mod 86400000 + 19 * 3600000
  < 1000 - 1000 mod 86400000 + 86400000 + 9 * 3600000.
Proof.
  apply (next_post_times_increase 0 defaultPreferredHours 1000 2 3
           (1000 - 1000 mod 86400000 + 19 * 3600000)
           (1000 - 1000 mod 86400000 + 86400000 + 9 * 3600000)).
  - exact defaultPreferredHours_increasing.
  - lia.
  - reflexivity.
  - reflexivity.
Defined.

(** The first slots are slots of today. *)
Lemma slot_today zone hours offset now t :
  (offset < List.length hours)%nat ->
  calculateNextPostTime zone hours offset now = Some t ->
  t = startOfDay zone now + nth offset hours 0 * hourMs.
Proof.
  intros Hlt Hsome.
  assert (hours <> []) as Hne by (intros ->; discriminate).
  rewrite (slot hours _ zone now Hne) in Hsome. injection Hsome as <-.
  rewrite Z.div_small, Z.mod_small by lia.
  rewrite Nat2Z.id. lia.
Qed.

(** X27.  For an offset below the number of preferred hours,
    [calculateNextPostTime] schedules on the current day: when that hour
    of today has already begun, the time it returns is not after the
    current time. *)
Theorem passed_slot_is_scheduled_in_the_past zone hours offset now t :
  (offset < List.length hours)%nat ->
  nth offset hours 0 * hourMs <= (now + zone) mod dayMs ->
  calculateNextPostTime zone hours offset now = Some t ->
  t <= now.
Proof.
  intros Hlt Hpassed Hsome.
  rewrite (slot_today zone hours offset now t Hlt Hsome).
  unfold startOfDay. lia.
Qed.

Lemma passed_slot_is_scheduled_in_the_past_witness :
  54000000 - (54000000 + 0) mod 86400000 + 9 * 3600000 <= 54000000.
Proof.
  apply (passed_slot_is_scheduled_in_the_past 0 defaultPreferredHours 0
           54000000
           (54000000 - (54000000 + 0) mod 86400000 + 9 * 3600000)).
  - cbn. lia.
  - vm_compute. discriminate.
  - reflexivity.
Defined.

End PlannerExtras.
